(** * manifold-fillet: edge extraction, edge selection and the fillet pipeline

    A shallow embedding of [edgeSelection.ts] ([extractEdges], [selectEdges],
    [sampleEdge], [edgeDirection], [edgeInwardDirection]), [fillet.ts]
    ([filletWithManifold], [createFilletCuttingTool]), [pipeAlongPath.ts]
    ([pipeAlongPath], [pipeAlongPathExtended]) and [wedgeBuilder.ts]
    ([buildWedge]).

    Modelling conventions.
    - A JavaScript [number] that holds a coordinate, an angle, a distance or a
      volume is a real number ([R]): rounding and overflow are not
      represented.  The literal [Infinity] of [selectByPoint] is explicit
      ([Num.Ext]), and so is the NaN that [Math.acos] returns outside
      [-1, 1] ([Num.mathAcos], [dihedralNumber]).
    - A vertex index, an element of the [Uint32Array] [triVerts], is an [N].
      What [parseInt] returns is an [option N], [None] standing for NaN.
    - A mesh is what [getMesh()] of the kernel hands out: [triVerts] holds
      whole triangles ([numTris = triVerts.length / 3]), every index has
      its properties in [vertProperties], and the three vertex indices of a
      triangle are different ([nondegenerate]); a theorem that relies on the
      last property takes it as a hypothesis.  Boundary edges and
      non-manifold edges are inputs of [extractEdges] like any other.
    - The [Map] from edge keys to adjacency arrays is an association list in
      insertion order, the order in which a JavaScript [Map] iterates.  Keys
      are the strings the code builds, split and parses.
    - The CSG kernel (the [Manifold] class and its static constructors) is a
      type class; solids are immutable handles.  A run of the pipeline yields
      the log of its kernel and console calls together with a value or a
      thrown error. *)

From Stdlib Require Import List String Ascii NArith PeanoNat Bool Lia.
From Stdlib Require Import Reals Lra Psatz Sorted.
From Stdlib Require Import DecimalString DecimalN.
Import ListNotations.

Local Open Scope string_scope.
Local Open Scope list_scope.

(** ** Numbers *)

Module Num.

Definition ltb (x y : R) : bool := if Rlt_dec x y then true else false.
Definition leb (x y : R) : bool := if Rle_dec x y then true else false.
Definition gtb (x y : R) : bool := ltb y x.

(** A number or [Infinity]. *)
Inductive Ext : Type :=
| Fin (r : R)
| Infinity.

(** [x < y] and [x <= y] for a finite [x]. *)
Definition lt_ext (x : R) (y : Ext) : bool :=
  match y with Fin r => ltb x r | Infinity => true end.
Definition le_ext (x : R) (y : Ext) : bool :=
  match y with Fin r => leb x r | Infinity => true end.

(** [x <= y] as a proposition. *)
Definition LeExt (x : R) (y : Ext) : Prop :=
  match y with Fin r => (x <= r)%R | Infinity => True end.

(** [Math.max], [Math.min]. *)
Definition max := Rmax.
Definition min := Rmin.

(** [Math.acos]: the arc cosine on [-1, 1], and NaN ([None]) outside. *)
Definition mathAcos (x : R) : option R :=
  if leb (-1) x && leb x 1 then Some (acos x) else None.

End Num.

Definition Vec3 : Type := (R * R * R)%type.

Definition vx (v : Vec3) : R := fst (fst v).
Definition vy (v : Vec3) : R := snd (fst v).
Definition vz (v : Vec3) : R := snd v.

(** ** Edge keys: [`${a}_${b}`], [key.split('_')], [parseInt] *)

Module Key.

(** [`${n}`] for an index: its decimal digits. *)
Definition toString (n : N) : string := NilEmpty.string_of_uint (N.to_uint n).

Definition underscore : ascii := "_"%char.

Definition isDigit (c : ascii) : bool :=
  let n := N_of_ascii c in (48 <=? n)%N && (n <=? 57)%N.

(** [`${a}_${b}`]. *)
Definition template (a b : N) : string :=
  toString a ++ String underscore (toString b).

(** [const key = a < b ? `${a}_${b}` : `${b}_${a}`]. *)
Definition make (a b : N) : string :=
  if (a <? b)%N then template a b else template b a.

(** [s.split('_')]: the pieces between the separators; never empty. *)
Fixpoint split (s : string) : list string :=
  match s with
  | EmptyString => [EmptyString]
  | String c s' =>
      if Ascii.eqb c underscore then EmptyString :: split s'
      else match split s' with
           | h :: t => String c h :: t
           | [] => [String c EmptyString]
           end
  end.

(** The longest prefix of decimal digits. *)
Fixpoint digitPrefix (s : string) : string :=
  match s with
  | EmptyString => EmptyString
  | String c s' => if isDigit c then String c (digitPrefix s') else EmptyString
  end.

(** [parseInt(s)] on a string that starts with its digits: the value of the
    leading decimal digits, NaN ([None]) when there is none.  ([parseInt]
    also skips white space and reads a sign or a [0x] prefix; no key has
    them.)  [parseInt(undefined)] is NaN. *)
Definition parseInt (s : option string) : option N :=
  match s with
  | None => None
  | Some s =>
      match digitPrefix s with
      | EmptyString => None
      | ds => option_map N.of_uint (NilEmpty.uint_of_string ds)
      end
  end.

End Key.

(** ** Meshes and mesh edges *)

(** What [mf.getMesh()] exposes: the flat triangle index buffer, the flat
    vertex property buffer and the number of properties per vertex. *)
Record Mesh : Type := mkMesh {
  triVerts : list N;
  vertProperties : list R;
  numProp : N
}.

Record MeshEdge : Type := mkEdge {
  v0 : option N;
  v1 : option N;
  p0 : Vec3;
  p1 : Vec3;
  n0 : Vec3;
  n1 : Vec3;
  dihedralAngle : R
}.

(** One element of an adjacency array: [{ tri: t, normal }]. *)
Record Adjacent : Type := mkAdjacent {
  tri : nat;
  normal : Vec3
}.

(** ** The insertion-ordered map [edgeToTris] *)

Module EdgeMap.

Definition t : Type := list (string * list Adjacent).

Definition empty : t := [].

Fixpoint has (key : string) (m : t) : bool :=
  match m with
  | [] => false
  | (k, _) :: m' => if String.eqb k key then true else has key m'
  end.

Fixpoint get (key : string) (m : t) : option (list Adjacent) :=
  match m with
  | [] => None
  | (k, v) :: m' => if String.eqb k key then Some v else get key m'
  end.

(** [m.set(key, v)]: replaces in place, or appends a new entry. *)
Fixpoint set (key : string) (v : list Adjacent) (m : t) : t :=
  match m with
  | [] => [(key, v)]
  | (k, w) :: m' =>
      if String.eqb k key then (k, v) :: m' else (k, w) :: set key v m'
  end.

(** [m.get(key)!.push(x)]: the array stored under [key] grows in place. *)
Fixpoint push (key : string) (x : Adjacent) (m : t) : t :=
  match m with
  | [] => []
  | (k, w) :: m' =>
      if String.eqb k key then (k, w ++ [x]) :: m' else (k, w) :: push key x m'
  end.

End EdgeMap.

(** ** [extractEdges] *)

Definition nthR (i : N) (l : list R) : R := nth (N.to_nat i) l 0%R.

(** [getVertex]: three consecutive properties from [idx * numProp].  An index
    past the buffer reads [undefined] in JavaScript; a mesh of the kernel has
    none, and the model reads 0 there.  A NaN index reads [undefined] too. *)
Definition getVertex (m : Mesh) (idx : option N) : Vec3 :=
  match idx with
  | Some idx =>
      let offset := (idx * numProp m)%N in
      (nthR offset (vertProperties m),
       nthR (offset + 1) (vertProperties m),
       nthR (offset + 2) (vertProperties m))
  | None => (0, 0, 0)%R
  end.

Definition computeNormal (a b c : Vec3) : Vec3 :=
  let e1 := (vx b - vx a, vy b - vy a, vz b - vz a)%R in
  let e2 := (vx c - vx a, vy c - vy a, vz c - vz a)%R in
  let n := (vy e1 * vz e2 - vz e1 * vy e2,
            vz e1 * vx e2 - vx e1 * vz e2,
            vx e1 * vy e2 - vy e1 * vx e2)%R in
  let len := sqrt (vx n * vx n + vy n * vy n + vz n * vz n) in
  if Num.gtb len 1e-12 then (vx n / len, vy n / len, vz n / len)%R else n.

(** [numTris = triVerts.length / 3]; the index buffer of a mesh holds whole
    triangles. *)
Definition numTris (m : Mesh) : nat := List.length (triVerts m) / 3.

Definition triIndex (m : Mesh) (t k : nat) : N := nth (t * 3 + k) (triVerts m) 0%N.

(** The three index pairs [[i0, i1], [i1, i2], [i2, i0]] of triangle [t]. *)
Definition triEdges (m : Mesh) (t : nat) : list (N * N) :=
  let i0 := triIndex m t 0 in
  let i1 := triIndex m t 1 in
  let i2 := triIndex m t 2 in
  [(i0, i1); (i1, i2); (i2, i0)].

Definition triNormal (m : Mesh) (t : nat) : Vec3 :=
  computeNormal (getVertex m (Some (triIndex m t 0)))
                (getVertex m (Some (triIndex m t 1)))
                (getVertex m (Some (triIndex m t 2))).

(** The body of [for (const [a, b] of edges)]. *)
Definition addEdge (x : Adjacent) (acc : EdgeMap.t) (ab : N * N) : EdgeMap.t :=
  let key := Key.make (fst ab) (snd ab) in
  let acc := if EdgeMap.has key acc then acc else EdgeMap.set key [] acc in
  EdgeMap.push key x acc.

(** The body of [for (let t = 0; t < numTris; t++)]. *)
Definition addTriangle (m : Mesh) (acc : EdgeMap.t) (t : nat) : EdgeMap.t :=
  fold_left (addEdge (mkAdjacent t (triNormal m t))) (triEdges m t) acc.

Definition buildEdgeToTris (m : Mesh) : EdgeMap.t :=
  fold_left (addTriangle m) (seq 0 (numTris m)) EdgeMap.empty.

Definition dot3 (a b : Vec3) : R := (vx a * vx b + vy a * vy b + vz a * vz b)%R.

Definition clampedDot (a b : Vec3) : R := Num.max (-1) (Num.min 1 (dot3 a b)).

Definition dihedral (a b : Vec3) : R := (acos (clampedDot a b) * (180 / PI))%R.

(** [Math.acos(clampedDot) * (180 / Math.PI)] as JavaScript evaluates it:
    NaN ([None]) when [Math.acos] is given a number outside [-1, 1], and a
    product with NaN is NaN. *)
Definition dihedralNumber (a b : Vec3) : option R :=
  match Num.mathAcos (clampedDot a b) with
  | Some angle => Some (angle * (180 / PI))%R
  | None => None
  end.

(** The body of [for (const [key, tris] of edgeToTris)]: [None] is [continue]. *)
Definition edgeOfEntry (m : Mesh) (entry : string * list Adjacent) : option MeshEdge :=
  let '(key, tris) := entry in
  match tris with
  | [t0; t1] =>
      let parts := Key.split key in
      let v0 := Key.parseInt (nth_error parts 0) in
      let v1 := Key.parseInt (nth_error parts 1) in
      Some (mkEdge v0 v1 (getVertex m v0) (getVertex m v1)
                   (normal t0) (normal t1)
                   (dihedral (normal t0) (normal t1)))
  | _ => None
  end.

Fixpoint collectEdges (m : Mesh) (entries : EdgeMap.t) : list MeshEdge :=
  match entries with
  | [] => []
  | entry :: rest =>
      match edgeOfEntry m entry with
      | Some e => e :: collectEdges m rest
      | None => collectEdges m rest
      end
  end.

Definition extractEdges (m : Mesh) : list MeshEdge :=
  collectEdges m (buildEdgeToTris m).

(** ** [selectEdges] *)

Record PointEdgeSelection : Type := mkPointSel {
  point : Vec3;
  maxDistance : option R
}.

Record AngleEdgeSelection : Type := mkAngleSel {
  minAngle : R
}.

Inductive EdgeSelection : Type :=
| SelPoint (s : PointEdgeSelection)
| SelAngle (s : AngleEdgeSelection).

Definition pointToSegmentDistance (p a b : Vec3) : R :=
  let ab := (vx b - vx a, vy b - vy a, vz b - vz a)%R in
  let ap := (vx p - vx a, vy p - vy a, vz p - vz a)%R in
  let abLenSq := (vx ab * vx ab + vy ab * vy ab + vz ab * vz ab)%R in
  if Num.ltb abLenSq 1e-12 then
    sqrt (vx ap * vx ap + vy ap * vy ap + vz ap * vz ap)
  else
    let t := Num.max 0 (Num.min 1
               ((vx ap * vx ab + vy ap * vy ab + vz ap * vz ab) / abLenSq)) in
    let closest := (vx a + t * vx ab, vy a + t * vy ab, vz a + t * vz ab)%R in
    let dx := (vx p - vx closest)%R in
    let dy := (vy p - vy closest)%R in
    let dz := (vz p - vz closest)%R in
    sqrt (dx * dx + dy * dy + dz * dz).

(** The distance [selectByPoint] computes for an edge. *)
Definition edgeDistance (p : Vec3) (edge : MeshEdge) : R :=
  pointToSegmentDistance p (p0 edge) (p1 edge).

(** The body of the loop of [selectByPoint], on the pair
    [(closestEdge, closestDist)]. *)
Definition closerEdge (p : Vec3) (maxDist : Num.Ext)
    (acc : option MeshEdge * Num.Ext) (edge : MeshEdge) : option MeshEdge * Num.Ext :=
  let dist := edgeDistance p edge in
  if Num.lt_ext dist (snd acc) && Num.le_ext dist maxDist
  then (Some edge, Num.Fin dist)
  else acc.

Definition selectByPoint (edges : list MeshEdge) (selection : PointEdgeSelection)
    : list MeshEdge :=
  let maxDist :=
    match maxDistance selection with
    | Some d => Num.Fin d
    | None => Num.Infinity
    end in
  match fst (fold_left (closerEdge (point selection) maxDist) edges
                       (None, Num.Infinity)) with
  | Some closestEdge => [closestEdge]
  | None => []
  end.

Definition selectByAngle (edges : list MeshEdge) (selection : AngleEdgeSelection)
    : list MeshEdge :=
  let threshold := (180 - minAngle selection)%R in
  filter (fun edge => Num.leb (dihedralAngle edge) threshold) edges.

Definition selectEdges (edges : list MeshEdge) (selection : EdgeSelection)
    : list MeshEdge :=
  match selection with
  | SelPoint s => selectByPoint edges s
  | SelAngle s => selectByAngle edges s
  end.

(** ** The CSG kernel *)

(** The static constructors of [ManifoldStatic] and the methods of a
    [Manifold] the pipeline calls.  Solids are immutable handles: every
    operation returns a new one. *)
Class ManifoldKernel (Manifold : Type) : Type := {
  sphere : R -> option N -> Manifold;
  hull : list Manifold -> Manifold;
  hullPoints : list Vec3 -> Manifold;
  union : list Manifold -> Manifold;
  translate : Manifold -> Vec3 -> Manifold;
  subtract : Manifold -> Manifold -> Manifold;
  volume : Manifold -> R;
  getMesh : Manifold -> Mesh
}.

(** ** Runs: an event log and a value or a thrown [Error] *)

Inductive Event (Manifold : Type) : Type :=
| EGetMesh (mf : Manifold)
| ESphere (radius : R) (segments : option N)
| ETranslate (mf : Manifold) (v : Vec3)
| EHull (parts : list Manifold)
| EHullPoints (points : list Vec3)
| EUnion (parts : list Manifold)
| ESubtract (a b : Manifold)
| EVolume (mf : Manifold)
| EWarn (msg : string)
| ELog (msg : string) (count : nat).

Arguments EGetMesh {Manifold}.
Arguments ESphere {Manifold}.
Arguments ETranslate {Manifold}.
Arguments EHull {Manifold}.
Arguments EHullPoints {Manifold}.
Arguments EUnion {Manifold}.
Arguments ESubtract {Manifold}.
Arguments EVolume {Manifold}.
Arguments EWarn {Manifold}.
Arguments ELog {Manifold}.

Inductive Outcome (A : Type) : Type :=
| Returned (a : A)
| Thrown (msg : string).

Arguments Returned {A}.
Arguments Thrown {A}.

Definition Run (Manifold A : Type) : Type := (list (Event Manifold) * Outcome A)%type.

Definition ret {Manifold A : Type} (a : A) : Run Manifold A := ([], Returned a).

Definition throw {Manifold A : Type} (msg : string) : Run Manifold A := ([], Thrown msg).

Definition emit {Manifold : Type} (e : Event Manifold) : Run Manifold unit :=
  ([e], Returned tt).

Definition bind {Manifold A B : Type} (c : Run Manifold A) (k : A -> Run Manifold B)
    : Run Manifold B :=
  match c with
  | (log, Returned a) => let '(log', r) := k a in (log ++ log', r)
  | (log, Thrown msg) => (log, Thrown msg)
  end.

Declare Scope run_scope.
Delimit Scope run_scope with run.
Notation "x <- c ;; k" := (bind c (fun x => k))
  (at level 61, c at next level, right associativity) : run_scope.
Notation "c ;;; k" := (bind c (fun _ => k))
  (at level 61, right associativity) : run_scope.

(** [for (const x of xs) { acc = body(acc, x) }] in a run. *)
Fixpoint forEach {Manifold A S : Type} (body : S -> A -> Run Manifold S)
    (xs : list A) (acc : S) : Run Manifold S :=
  match xs with
  | [] => ret acc
  | x :: xs' => bind (body acc x) (forEach body xs')
  end.

Record FilletOptions : Type := mkOptions {
  radius : R;
  selection : EdgeSelection;
  segments : option N
}.

(** [segments = 16] in the destructuring of the options. *)
Definition segmentsOrDefault (options : FilletOptions) : option N :=
  match segments options with
  | Some s => Some s
  | None => Some 16%N
  end.

Section Pipeline.

Context {Manifold : Type} {K : ManifoldKernel Manifold}.

Local Open Scope run_scope.

(** Kernel calls, logged. *)
Definition sphereM (r : R) (seg : option N) : Run Manifold Manifold :=
  emit (ESphere r seg) ;;; ret (sphere r seg).
Definition translateM (mf : Manifold) (v : Vec3) : Run Manifold Manifold :=
  emit (ETranslate mf v) ;;; ret (translate mf v).
Definition hullM (parts : list Manifold) : Run Manifold Manifold :=
  emit (EHull parts) ;;; ret (hull parts).
Definition hullPointsM (points : list Vec3) : Run Manifold Manifold :=
  emit (EHullPoints points) ;;; ret (hullPoints points).
Definition unionM (parts : list Manifold) : Run Manifold Manifold :=
  emit (EUnion parts) ;;; ret (union parts).
Definition subtractM (a b : Manifold) : Run Manifold Manifold :=
  emit (ESubtract a b) ;;; ret (subtract a b).
Definition volumeM (mf : Manifold) : Run Manifold R :=
  emit (EVolume mf) ;;; ret (volume mf).
Definition getMeshM (mf : Manifold) : Run Manifold Mesh :=
  emit (EGetMesh mf) ;;; ret (getMesh mf).

(** *** [pipeAlongPath.ts] *)

Definition normalize (v : Vec3) : Vec3 :=
  let len := sqrt (vx v * vx v + vy v * vy v + vz v * vz v) in
  if Num.ltb len 1e-12 then (1, 0, 0)%R
  else (vx v / len, vy v / len, vz v / len)%R.

(** [for (const [x, y, z] of path) spheres.push(sphere(...).translate(...))]. *)
Definition placeSphere (r : R) (seg : option N)
    (spheres : list Manifold) (p : Vec3) : Run Manifold (list Manifold) :=
  s <- sphereM r seg ;;
  s' <- translateM s p ;;
  ret (spheres ++ [s']).

(** [for (i = 0; i < path.length - 1; i++) segments_.push(hull([spheres[i],
    spheres[i + 1]]))]: one hull per pair of neighbours ([spheres] is as
    long as [path]). *)
Fixpoint hullNeighbours (spheres : list Manifold) (segments_ : list Manifold)
    : Run Manifold (list Manifold) :=
  match spheres with
  | a :: (b :: _) as rest =>
      segment <- hullM [a; b] ;;
      hullNeighbours rest (segments_ ++ [segment])
  | _ => ret segments_
  end.

Definition pipeAlongPath (path : list Vec3) (r : R) (seg : option N)
    : Run Manifold Manifold :=
  if (List.length path <? 2)%nat then throw "Path must have at least 2 points"
  else
    spheres <- forEach (placeSphere r seg) path [] ;;
    segments_ <- hullNeighbours spheres [] ;;
    match segments_ with
    | [segment] => ret segment
    | _ => unionM segments_
    end.

Definition nthP (i : nat) (path : list Vec3) : Vec3 := nth i path (0, 0, 0)%R.

(** The path [pipeAlongPathExtended] hands on: one more point before the
    first and one after the last. *)
Definition extendPath (path : list Vec3) (r extensionFactor : R) : list Vec3 :=
  let start := nthP 0 path in
  let afterStart := nthP 1 path in
  let startDir := normalize (vx start - vx afterStart,
                             vy start - vy afterStart,
                             vz start - vz afterStart)%R in
  let end_ := nthP (List.length path - 1) path in
  let beforeEnd := nthP (List.length path - 2) path in
  let endDir := normalize (vx end_ - vx beforeEnd,
                           vy end_ - vy beforeEnd,
                           vz end_ - vz beforeEnd)%R in
  let ext := (r * extensionFactor)%R in
  [(vx start + vx startDir * ext, vy start + vy startDir * ext,
    vz start + vz startDir * ext)%R]
  ++ path ++
  [(vx end_ + vx endDir * ext, vy end_ + vy endDir * ext,
    vz end_ + vz endDir * ext)%R].

(** [extensionFactor] is [None] when the caller leaves it out (default 0.1). *)
Definition pipeAlongPathExtended (path : list Vec3) (r : R)
    (extensionFactor : option R) (seg : option N) : Run Manifold Manifold :=
  let extensionFactor :=
    match extensionFactor with Some f => f | None => 0.1%R end in
  if (List.length path <? 2)%nat then throw "Path must have at least 2 points"
  else pipeAlongPath (extendPath path r extensionFactor) r seg.

(** *** [fillet.ts] *)

(** [null] is [None]. *)
Definition createFilletCuttingTool (edge : MeshEdge) (r : R) (seg : option N)
    : Run Manifold (option Manifold) :=
  let '(x0, y0, z0) := p0 edge in
  let '(x1, y1, z1) := p1 edge in
  let ex := (x1 - x0)%R in
  let ey := (y1 - y0)%R in
  let ez := (z1 - z0)%R in
  let edgeLen := sqrt (ex * ex + ey * ey + ez * ez) in
  if Num.ltb edgeLen 1e-9 then ret None
  else
    let edgeDir := (ex / edgeLen, ey / edgeLen, ez / edgeLen)%R in
    let '(n0x, n0y, n0z) := n0 edge in
    let '(n1x, n1y, n1z) := n1 edge in
    let ext := (r * 0.1)%R in
    let tubeStart :=
      (x0 - n0x * r - n1x * r - vx edgeDir * ext,
       y0 - n0y * r - n1y * r - vy edgeDir * ext,
       z0 - n0z * r - n1z * r - vz edgeDir * ext)%R in
    let tubeEnd :=
      (x1 - n0x * r - n1x * r + vx edgeDir * ext,
       y1 - n0y * r - n1y * r + vy edgeDir * ext,
       z1 - n0z * r - n1z * r + vz edgeDir * ext)%R in
    s0 <- sphereM r seg ;;
    sphere0 <- translateM s0 tubeStart ;;
    s1 <- sphereM r seg ;;
    sphere1 <- translateM s1 tubeEnd ;;
    tube <- hullM [sphere0; sphere1] ;;
    let wedgeDepth := (r * 1.1)%R in
    let sX := (x0 - vx edgeDir * ext)%R in
    let sY := (y0 - vy edgeDir * ext)%R in
    let sZ := (z0 - vz edgeDir * ext)%R in
    let eX := (x1 + vx edgeDir * ext)%R in
    let eY := (y1 + vy edgeDir * ext)%R in
    let eZ := (z1 + vz edgeDir * ext)%R in
    let wedgePoints :=
      [(sX, sY, sZ);
       (sX - n0x * wedgeDepth, sY - n0y * wedgeDepth, sZ - n0z * wedgeDepth);
       (sX - n1x * wedgeDepth, sY - n1y * wedgeDepth, sZ - n1z * wedgeDepth);
       (eX, eY, eZ);
       (eX - n0x * wedgeDepth, eY - n0y * wedgeDepth, eZ - n0z * wedgeDepth);
       (eX - n1x * wedgeDepth, eY - n1y * wedgeDepth, eZ - n1z * wedgeDepth)]%R in
    wedge <- hullPointsM wedgePoints ;;
    tool <- subtractM wedge tube ;;
    ret (Some tool).

(** The body of [for (const edge of selectedEdges)]. *)
Definition addCuttingTool (r : R) (seg : option N)
    (cuttingTools : list Manifold) (edge : MeshEdge) : Run Manifold (list Manifold) :=
  if Num.gtb (dihedralAngle edge) 5 && Num.ltb (dihedralAngle edge) 175 then
    tool <- createFilletCuttingTool edge r seg ;;
    match tool with
    | Some tool =>
        vol <- volumeM tool ;;
        if Num.gtb vol 1e-9 then ret (cuttingTools ++ [tool])
        else ret cuttingTools
    | None => ret cuttingTools
    end
  else ret cuttingTools.

(** [for (const tool of cuttingTools) result = result.subtract(tool)]. *)
Definition subtractTools (cuttingTools : list Manifold) (result : Manifold)
    : Run Manifold Manifold :=
  forEach subtractM cuttingTools result.

(** [extractEdges(mf)]: the mesh is read from the solid, then scanned. *)
Definition extractEdgesM (mf : Manifold) : Run Manifold (list MeshEdge) :=
  mesh <- getMeshM mf ;;
  ret (extractEdges mesh).

Definition filletWithManifold (mf : Manifold) (options : FilletOptions)
    : Run Manifold Manifold :=
  let r := radius options in
  let seg := segmentsOrDefault options in
  if Num.leb r 0 then throw "Fillet radius must be positive"
  else
    allEdges <- extractEdgesM mf ;;
    if (List.length allEdges =? 0)%nat then
      emit (EWarn "fillet: No edges found in mesh") ;;;
      ret mf
    else
      let selectedEdges := selectEdges allEdges (selection options) in
      if (List.length selectedEdges =? 0)%nat then
        emit (EWarn "fillet: No edges matched selection criteria") ;;;
        ret mf
      else
        emit (ELog "fillet: Found edges to fillet" (List.length selectedEdges)) ;;;
        cuttingTools <- forEach (addCuttingTool r seg) selectedEdges [] ;;
        if (0 <? List.length cuttingTools)%nat then
          emit (ELog "fillet: Subtracting tools sequentially"
                     (List.length cuttingTools)) ;;;
          subtractTools cuttingTools mf
        else ret mf.

End Pipeline.

(** ** Vocabulary of the specification *)

(** Every index pair pushed by the triangle loop, in order. *)
Definition edgeSlots (m : Mesh) : list (N * N) :=
  flat_map (triEdges m) (seq 0 (numTris m)).

(** [ij] is the unordered pair [{a, b}]. *)
Definition samePair (a b : N) (ij : N * N) : bool :=
  ((fst ij =? a)%N && (snd ij =? b)%N) || ((fst ij =? b)%N && (snd ij =? a)%N).

(** How many times [{a, b}] occurs among the edge slots of all triangles,
    counted with multiplicity. *)
Definition slotCount (m : Mesh) (a b : N) : nat :=
  List.length (filter (samePair a b) (edgeSlots m)).

(** Triangle [t] has [{a, b}] as one of its three edges. *)
Definition triHasPair (m : Mesh) (a b : N) (t : nat) : bool :=
  existsb (samePair a b) (triEdges m t).

(** In how many triangles [{a, b}] occurs as an edge. *)
Definition triCount (m : Mesh) (a b : N) : nat :=
  List.length (filter (triHasPair m a b) (seq 0 (numTris m))).

(** Triangle [t] has three different corners. *)
Definition distinctCorners (m : Mesh) (t : nat) : bool :=
  negb (triIndex m t 0 =? triIndex m t 1)%N &&
  negb (triIndex m t 1 =? triIndex m t 2)%N &&
  negb (triIndex m t 2 =? triIndex m t 0)%N.

Definition nondegenerate (m : Mesh) : bool :=
  forallb (distinctCorners m) (seq 0 (numTris m)).

(** [extractEdges] returns an edge for the unordered pair [{a, b}]. *)
Definition hasEdge (m : Mesh) (a b : N) : Prop :=
  exists e, In e (extractEdges m) /\
            v0 e = Some (N.min a b) /\ v1 e = Some (N.max a b).

(** Every pair that is an edge of some triangle is an edge of exactly two. *)
Definition closedMesh (m : Mesh) : bool :=
  forallb (fun ab => (triCount m (fst ab) (snd ab) =? 2)%nat) (edgeSlots m).

(** The events of a log that are boolean operations or constructions of the
    kernel (everything but reading the mesh and writing to the console). *)
Definition isKernelWork {Manifold : Type} (e : Event Manifold) : bool :=
  match e with
  | EGetMesh _ | EWarn _ | ELog _ _ => false
  | _ => true
  end.

(** The (key, adjacency entry) pairs triangle [t] pushes, and all of them. *)
Definition slotEntries (m : Mesh) (t : nat) : list (string * Adjacent) :=
  map (fun ab => (Key.make (fst ab) (snd ab), mkAdjacent t (triNormal m t)))
      (triEdges m t).

Definition allEntries (m : Mesh) : list (string * Adjacent) :=
  flat_map (slotEntries m) (seq 0 (numTris m)).

(** [addEdge] on a (key, entry) pair. *)
Definition addEntry (acc : EdgeMap.t) (kx : string * Adjacent) : EdgeMap.t :=
  EdgeMap.push (fst kx) (snd kx)
    (if EdgeMap.has (fst kx) acc then acc else EdgeMap.set (fst kx) [] acc).

(** The entries pushed under [key], in order. *)
Definition entriesFor (key : string) (l : list (string * Adjacent)) : list Adjacent :=
  map snd (filter (fun kx => String.eqb (fst kx) key) l).

Definition lookupSpec (key : string) (l : list (string * Adjacent))
    : option (list Adjacent) :=
  match entriesFor key l with
  | [] => None
  | es => Some es
  end.

Definition totalEntries (acc : EdgeMap.t) : nat :=
  list_sum (map (fun kv => List.length (snd kv)) acc).

(** What the triangle loop maintains: distinct keys, each holding the entries
    pushed under it so far. *)
Definition mapInvariant (acc : EdgeMap.t) (done : list (string * Adjacent)) : Prop :=
  NoDup (map fst acc) /\
  (forall k, EdgeMap.get k acc = lookupSpec k done) /\
  totalEntries acc = List.length done.

Section PipelineVocabulary.

Context {Manifold : Type} {K : ManifoldKernel Manifold}.

(** A sphere of radius [r] at every point of the path. *)
Definition spheresAt (r : R) (seg : option N) (path : list Vec3) : list Manifold :=
  map (fun p => translate (sphere r seg) p) path.

(** The hull of every two neighbouring solids of a list. *)
Fixpoint hullsOfNeighbours (spheres : list Manifold) : list Manifold :=
  match spheres with
  | a :: (b :: _) as rest => hull [a; b] :: hullsOfNeighbours rest
  | _ => []
  end.

(** The segments joined: a single segment is the tube itself, several are
    handed to the kernel's [union]. *)
Definition joined (segments_ : list Manifold) : Manifold :=
  match segments_ with
  | [segment] => segment
  | _ => union segments_
  end.

Definition tubeAlong (path : list Vec3) (r : R) (seg : option N) : Manifold :=
  joined (hullsOfNeighbours (spheresAt r seg path)).

(** The events of [result = result.subtract(tool)] over a list of tools. *)
Fixpoint subtractLog (result : Manifold) (tools : list Manifold)
    : list (Event Manifold) :=
  match tools with
  | [] => []
  | tool :: rest => ESubtract result tool :: subtractLog (subtract result tool) rest
  end.

(** [tool] was built from one of [edges], for an angle strictly between 5 and
    175 degrees, and its volume exceeds 1e-9. *)
Definition qualifies (r : R) (seg : option N) (edges : list MeshEdge)
    (tool : Manifold) : Prop :=
  exists edge,
    In edge edges /\
    (5 < dihedralAngle edge < 175)%R /\
    snd (createFilletCuttingTool edge r seg) = Returned (Some tool) /\
    (volume tool > 1e-9)%R.

(** A subtraction that belongs to the construction of a tool: a hull of
    points (the wedge) minus a hull of solids (the tube). *)
Definition insideToolConstruction (e : Event Manifold) : Prop :=
  match e with
  | ESubtract a b => exists points parts, a = hullPoints points /\ b = hull parts
  | _ => True
  end.

End PipelineVocabulary.

(** [selection.maxDistance ?? Infinity]. *)
Definition reach (s : PointEdgeSelection) : Num.Ext :=
  match maxDistance s with
  | Some d => Num.Fin d
  | None => Num.Infinity
  end.

(** The index pairs of the extracted edges, in order. *)
Definition edgeIndices (m : Mesh) : list (option N * option N) :=
  map (fun e => (v0 e, v1 e)) (extractEdges m).

(** What the loop of [selectByPoint] has established after the edges [done]. *)
Definition closestSoFar (p : Vec3) (maxDist : Num.Ext)
    (acc : option MeshEdge * Num.Ext) (done : list MeshEdge) : Prop :=
  match fst acc with
  | None =>
      snd acc = Num.Infinity /\
      forall e, In e done -> Num.le_ext (edgeDistance p e) maxDist = false
  | Some c =>
      In c done /\ snd acc = Num.Fin (edgeDistance p c) /\
      Num.le_ext (edgeDistance p c) maxDist = true /\
      forall e, In e done -> (edgeDistance p c <= edgeDistance p e)%R
  end.

(** ** A symbolic kernel, to run the pipeline on concrete inputs *)

#[warnings="-register-all"]
Inductive Solid : Type :=
| OfMesh (m : Mesh)
| SphereOf (r : R) (seg : option N)
| HullOf (parts : list Solid)
| HullOfPoints (points : list Vec3)
| UnionOf (parts : list Solid)
| Moved (s : Solid) (v : Vec3)
| Minus (a b : Solid).

Definition emptyMesh : Mesh := mkMesh [] [] 3.

#[export] Instance SymbolicKernel : ManifoldKernel Solid := {
  sphere := SphereOf;
  hull := HullOf;
  hullPoints := HullOfPoints;
  union := UnionOf;
  translate := Moved;
  subtract := Minus;
  volume := fun _ => 1%R;
  getMesh := fun s => match s with OfMesh m => m | _ => emptyMesh end
}.

(** The four corner points used by the sample meshes: the origin and the
    three unit points, as a property buffer with [numProp = 3]. *)
Definition unitCorners : list R :=
  [0; 0; 0;  1; 0; 0;  0; 1; 0;  0; 0; 1]%R.

(** A tetrahedron on the vertices 0..3. *)
Definition tetrahedron : Mesh :=
  mkMesh [0; 1; 2;  0; 3; 1;  1; 3; 2;  2; 3; 0]%N unitCorners 3.

(** Three triangles around the edge from vertex 0 to vertex 1. *)
Definition fan : Mesh :=
  mkMesh [0; 1; 2;  0; 3; 1;  0; 1; 4]%N (unitCorners ++ [0; -1; 0]%R) 3.

(** An edge with a given dihedral angle; the other fields are immaterial. *)
Definition edgeWithAngle (angle : R) : MeshEdge :=
  mkEdge (Some 0%N) (Some 1%N) (0, 0, 0)%R (1, 0, 0)%R (0, 0, 1)%R (0, 1, 0)%R angle.

(** Two triangles that meet at a right angle along the edge from vertex 0
    to vertex 1: one in the plane z = 0, one in the plane y = 0. *)
Definition corner : Mesh := mkMesh [0; 1; 2;  0; 3; 1]%N unitCorners 3.

Definition cornerEdge : MeshEdge :=
  mkEdge (Some 0%N) (Some 1%N) (0, 0, 0)%R (1, 0, 0)%R (0, 0, 1)%R (0, 1, 0)%R 90.

(** The same edge moved to y = 5. *)
Definition farEdge : MeshEdge :=
  mkEdge (Some 2%N) (Some 3%N) (0, 5, 0)%R (1, 5, 0)%R (0, 0, 1)%R (0, 1, 0)%R 90.

(** [edgeLen] of [createFilletCuttingTool]. *)
Definition edgeLength (edge : MeshEdge) : R :=
  let ex := (vx (p1 edge) - vx (p0 edge))%R in
  let ey := (vy (p1 edge) - vy (p0 edge))%R in
  let ez := (vz (p1 edge) - vz (p0 edge))%R in
  sqrt (ex * ex + ey * ey + ez * ez).

(** ** The remaining helpers of [edgeSelection.ts] and [wedgeBuilder.ts] *)

(** [sampleEdge(edge, numSamples = 10)]: the points at [t = i / numSamples]
    for [i = 0 .. numSamples].  The number of samples is a count here; with
    [numSamples = 0] JavaScript computes [0 / 0], which the reals do not
    represent, so what is proved about the points asks for a positive count. *)
Definition samplePoint (edge : MeshEdge) (numSamples i : nat) : Vec3 :=
  let t := (INR i / INR numSamples)%R in
  (vx (p0 edge) + t * (vx (p1 edge) - vx (p0 edge)),
   vy (p0 edge) + t * (vy (p1 edge) - vy (p0 edge)),
   vz (p0 edge) + t * (vz (p1 edge) - vz (p0 edge)))%R.

Definition sampleEdge (edge : MeshEdge) (numSamples : option nat) : list Vec3 :=
  let numSamples := match numSamples with Some n => n | None => 10%nat end in
  map (samplePoint edge numSamples) (seq 0 (S numSamples)).

Definition edgeDirection (edge : MeshEdge) : Vec3 :=
  let dx := (vx (p1 edge) - vx (p0 edge))%R in
  let dy := (vy (p1 edge) - vy (p0 edge))%R in
  let dz := (vz (p1 edge) - vz (p0 edge))%R in
  let len := sqrt (dx * dx + dy * dy + dz * dz) in
  if Num.ltb len 1e-12 then (1, 0, 0)%R
  else (dx / len, dy / len, dz / len)%R.

Definition edgeInwardDirection (edge : MeshEdge) : Vec3 :=
  let n := ((vx (n0 edge) + vx (n1 edge)) / 2,
            (vy (n0 edge) + vy (n1 edge)) / 2,
            (vz (n0 edge) + vz (n1 edge)) / 2)%R in
  let len := sqrt (vx n * vx n + vy n * vy n + vz n * vz n) in
  if Num.ltb len 1e-12 then (0, 0, 1)%R
  else (- vx n / len, - vy n / len, - vz n / len)%R.

(** [crossAndNormalize] and [dot] of [wedgeBuilder.ts]. *)
Definition crossAndNormalize (a b : Vec3) : Vec3 :=
  let c := (vy a * vz b - vz a * vy b,
            vz a * vx b - vx a * vz b,
            vx a * vy b - vy a * vx b)%R in
  let len := sqrt (vx c ^ 2 + vy c ^ 2 + vz c ^ 2) in
  if Num.ltb len 1e-12 then (0, 0, 1)%R
  else (vx c / len, vy c / len, vz c / len)%R.

Definition dot (a b : Vec3) : R := (vx a * vx b + vy a * vy b + vz a * vz b)%R.

(** [if (dotA < 0) { offsetA[0] = -offsetA[0]; ... }]. *)
Definition flipToward (offset n : Vec3) : Vec3 :=
  if Num.ltb (dot offset n) 0 then (- vx offset, - vy offset, - vz offset)%R
  else offset.

(** The six points [s0, sA, sB, e0, eA, eB] of [buildWedge]. *)
Definition wedgePoints (edge : MeshEdge) (distance inflate : R) : list Vec3 :=
  let dir := edgeDirection edge in
  let offsetA := flipToward (crossAndNormalize (n0 edge) dir) (n0 edge) in
  let offsetB := flipToward (crossAndNormalize (n1 edge) dir) (n1 edge) in
  let d := (distance + inflate)%R in
  let ext := inflate in
  let s0 := (vx (p0 edge) - vx dir * ext, vy (p0 edge) - vy dir * ext,
             vz (p0 edge) - vz dir * ext)%R in
  let sA := (vx s0 + vx offsetA * d, vy s0 + vy offsetA * d, vz s0 + vz offsetA * d)%R in
  let sB := (vx s0 + vx offsetB * d, vy s0 + vy offsetB * d, vz s0 + vz offsetB * d)%R in
  let e0 := (vx (p1 edge) + vx dir * ext, vy (p1 edge) + vy dir * ext,
             vz (p1 edge) + vz dir * ext)%R in
  let eA := (vx e0 + vx offsetA * d, vy e0 + vy offsetA * d, vz e0 + vz offsetA * d)%R in
  let eB := (vx e0 + vx offsetB * d, vy e0 + vy offsetB * d, vz e0 + vz offsetB * d)%R in
  [s0; sA; sB; e0; eA; eB].

Section WedgeBuilder.

Context {Manifold : Type} {K : ManifoldKernel Manifold}.

(** [buildWedge(Manifold, edge, distance, inflate = 0.001)]. *)
Definition buildWedge (edge : MeshEdge) (distance : R) (inflate : option R)
    : Run Manifold Manifold :=
  let inflate := match inflate with Some i => i | None => 0.001%R end in
  hullPointsM (wedgePoints edge distance inflate).

End WedgeBuilder.

(** *** Vocabulary for the geometry *)

Definition vsub (a b : Vec3) : Vec3 := (vx a - vx b, vy a - vy b, vz a - vz b)%R.

Definition normSq (v : Vec3) : R := (vx v * vx v + vy v * vy v + vz v * vz v)%R.

(** The Euclidean distance of two points. *)
Definition dist3 (a b : Vec3) : R := sqrt (normSq (vsub a b)).

(** The point of the segment from [a] to [b] at parameter [t]. *)
Definition along (a b : Vec3) (t : R) : Vec3 :=
  (vx a + t * (vx b - vx a), vy a + t * (vy b - vy a), vz a + t * (vz b - vz a))%R.

(** The cross product of the two edge vectors of a triangle. *)
Definition triCross (a b c : Vec3) : Vec3 :=
  let e1 := vsub b a in
  let e2 := vsub c a in
  (vy e1 * vz e2 - vz e1 * vy e2,
   vz e1 * vx e2 - vx e1 * vz e2,
   vx e1 * vy e2 - vy e1 * vx e2)%R.

(** *** Vocabulary for the loops *)

(** The edge [selectByPoint] holds after the edges [done] comes before
    every other edge of [done] that is as close. *)
Definition firstClosest (p : Vec3) (acc : option MeshEdge * Num.Ext)
    (done : list MeshEdge) : Prop :=
  match fst acc with
  | None => True
  | Some c =>
      exists before after,
        done = before ++ c :: after /\
        forall e, In e before -> (edgeDistance p c < edgeDistance p e)%R
  end.

(** The entries triangle [t] pushes under [key]. *)
Definition entriesOfTriangle (m : Mesh) (key : string) (t : nat)
    : list (string * Adjacent) :=
  filter (fun kx => String.eqb (fst kx) key) (slotEntries m t).

Section TubeVocabulary.

Context {Manifold : Type} {K : ManifoldKernel Manifold}.

(** The pairs of neighbours of a list: the arguments of the calls to [hull]. *)
Fixpoint neighbourPairs (spheres : list Manifold) : list (list Manifold) :=
  match spheres with
  | a :: (b :: _) as rest => [a; b] :: neighbourPairs rest
  | _ => []
  end.

(** The kernel calls that place one sphere per point. *)
Definition placeLog (r : R) (seg : option N) (path : list Vec3)
    : list (Event Manifold) :=
  flat_map (fun p => [ESphere r seg; ETranslate (sphere r seg) p]) path.

End TubeVocabulary.

(** Two triangles in the plane z = 0 that share the edge from vertex 1 to
    vertex 2 (a unit square cut along a diagonal), over [unitCorners] with
    the fourth corner replaced by (1, 1, 0). *)
Definition flatSquare : Mesh :=
  mkMesh [0; 1; 2;  1; 3; 2]%N [0; 0; 0;  1; 0; 0;  0; 1; 0;  1; 1; 0]%R 3.

(** A call to [sphere], if the event is one, asks for radius [r] and [seg]
    segments. *)
Definition sphereWith {Manifold : Type} (r : R) (seg : option N)
    (e : Event Manifold) : Prop :=
  match e with
  | ESphere r' seg' => r' = r /\ seg' = seg
  | _ => True
  end.

(** The shared edge of [flatSquare]: both normals are (0, 0, 1). *)
Definition flatEdge : MeshEdge :=
  mkEdge (Some 1%N) (Some 2%N) (1, 0, 0)%R (0, 1, 0)%R (0, 0, 1)%R (0, 0, 1)%R 0.

(** The options of the sample script: radius 2, [minAngle = 80], 50 segments. *)
Definition sampleOptions : FilletOptions :=
  mkOptions 2 (SelAngle (mkAngleSel 80)) (Some 50%N).

(** ** Edge keys *)

Lemma toString_digits (d : Decimal.uint) :
  Key.digitPrefix (NilEmpty.string_of_uint d) = NilEmpty.string_of_uint d.
Proof.
  induction d; simpl; try reflexivity;
    (change (Key.isDigit _) with true; cbv iota; now rewrite IHd).
Qed.

Lemma toString_nonempty (n : N) : Key.toString n <> EmptyString.
Proof.
  unfold Key.toString. destruct n as [|p]; [discriminate|].
  cbn [N.to_uint]. intro H.
  assert (Hn : N.of_uint (Pos.to_uint p) = N.pos p)
    by (change (Pos.to_uint p) with (N.to_uint (N.pos p)); apply Unsigned.of_to).
  destruct (Pos.to_uint p); simpl in H; discriminate.
Qed.

Lemma parseInt_toString (n : N) : Key.parseInt (Some (Key.toString n)) = Some n.
Proof.
  unfold Key.parseInt, Key.toString. rewrite toString_digits.
  pose proof (toString_nonempty n) as Hne. unfold Key.toString in Hne.
  destruct (NilEmpty.string_of_uint (N.to_uint n)) eqn:E; [congruence|].
  rewrite <- E, NilEmpty.usu. simpl. now rewrite Unsigned.of_to.
Qed.

Lemma split_digits (d : Decimal.uint) (rest : string) :
  Key.split (NilEmpty.string_of_uint d ++ String Key.underscore rest)
  = match Key.split rest with
    | h :: t => NilEmpty.string_of_uint d :: h :: t
    | [] => [NilEmpty.string_of_uint d]
    end.
Proof.
  induction d; simpl;
    try (rewrite IHd; destruct (Key.split rest); reflexivity).
  destruct (Key.split rest); reflexivity.
Qed.

Lemma split_no_underscore (d : Decimal.uint) :
  Key.split (NilEmpty.string_of_uint d) = [NilEmpty.string_of_uint d].
Proof. induction d; simpl; try rewrite IHd; reflexivity. Qed.

Lemma split_template (a b : N) :
  Key.split (Key.template a b) = [Key.toString a; Key.toString b].
Proof.
  unfold Key.template, Key.toString.
  now rewrite split_digits, split_no_underscore.
Qed.

Lemma template_inj (a b c d : N) :
  Key.template a b = Key.template c d -> a = c /\ b = d.
Proof.
  intro H.
  assert (Hs : [Key.toString a; Key.toString b] = [Key.toString c; Key.toString d])
    by (rewrite <- !split_template; now rewrite H).
  injection Hs as Ha Hb.
  apply (f_equal (fun s => Key.parseInt (Some s))) in Ha, Hb.
  rewrite !parseInt_toString in Ha, Hb. split; congruence.
Qed.

Lemma make_template (a b : N) :
  Key.make a b = Key.template (N.min a b) (N.max a b).
Proof.
  unfold Key.make. destruct (N.ltb_spec a b).
  - now rewrite N.min_l, N.max_r by lia.
  - now rewrite N.min_r, N.max_l by lia.
Qed.

Lemma samePair_min_max (a b i j : N) :
  samePair a b (i, j) = true <-> N.min i j = N.min a b /\ N.max i j = N.max a b.
Proof.
  unfold samePair; simpl.
  rewrite orb_true_iff, !andb_true_iff, !N.eqb_eq. lia.
Qed.

Lemma make_eq_iff (a b i j : N) :
  Key.make i j = Key.make a b <-> samePair a b (i, j) = true.
Proof.
  rewrite !make_template, samePair_min_max. split.
  - apply template_inj.
  - intros [-> ->]. reflexivity.
Qed.

(** ** The edge map *)

Lemma has_get (key : string) (m : EdgeMap.t) :
  EdgeMap.has key m = match EdgeMap.get key m with Some _ => true | None => false end.
Proof.
  induction m as [|[k w] m IH]; simpl; [reflexivity|].
  destruct (String.eqb k key); [reflexivity | exact IH].
Qed.

Lemma get_push (k key : string) (x : Adjacent) (m : EdgeMap.t) :
  EdgeMap.get k (EdgeMap.push key x m)
  = if String.eqb key k
    then option_map (fun w => w ++ [x]) (EdgeMap.get k m)
    else EdgeMap.get k m.
Proof.
  induction m as [|[k' w] m IH]; simpl.
  - now destruct (String.eqb key k).
  - destruct (String.eqb_spec k' key) as [->|Hk]; simpl.
    + destruct (String.eqb_spec key k) as [->|Hk']; simpl; reflexivity.
    + destruct (String.eqb_spec k' k) as [->|Hk'].
      * now rewrite (proj2 (String.eqb_neq _ _) (not_eq_sym Hk)).
      * exact IH.
Qed.

Lemma get_set_fresh (k key : string) (v : list Adjacent) (m : EdgeMap.t) :
  EdgeMap.has key m = false ->
  EdgeMap.get k (EdgeMap.set key v m)
  = if String.eqb key k then Some v else EdgeMap.get k m.
Proof.
  induction m as [|[k' w] m IH]; simpl; intro H; [reflexivity|].
  destruct (String.eqb_spec k' key) as [->|Hk]; [discriminate|]. simpl.
  destruct (String.eqb_spec k' k) as [->|Hk'].
  - now rewrite (proj2 (String.eqb_neq _ _) (not_eq_sym Hk)).
  - now apply IH.
Qed.

Lemma keys_push (key : string) (x : Adjacent) (m : EdgeMap.t) :
  map fst (EdgeMap.push key x m) = map fst m.
Proof.
  induction m as [|[k w] m IH]; simpl; [reflexivity|].
  destruct (String.eqb k key); simpl; [reflexivity | now rewrite IH].
Qed.

Lemma keys_set_fresh (key : string) (v : list Adjacent) (m : EdgeMap.t) :
  EdgeMap.has key m = false ->
  map fst (EdgeMap.set key v m) = map fst m ++ [key].
Proof.
  induction m as [|[k w] m IH]; simpl; intro H; [reflexivity|].
  destruct (String.eqb k key); [discriminate|]. simpl. now rewrite IH.
Qed.

Lemma has_in_keys (key : string) (m : EdgeMap.t) :
  EdgeMap.has key m = true <-> In key (map fst m).
Proof.
  induction m as [|[k w] m IH]; simpl; [split; [discriminate | tauto]|].
  destruct (String.eqb_spec k key) as [->|Hk]; [tauto|].
  rewrite IH. split; [tauto | intros [?|?]; [contradiction | assumption]].
Qed.

Lemma total_push (key : string) (x : Adjacent) (m : EdgeMap.t) :
  totalEntries (EdgeMap.push key x m)
  = (totalEntries m + if EdgeMap.has key m then 1 else 0)%nat.
Proof.
  unfold totalEntries.
  induction m as [|[k w] m IH]; simpl; [reflexivity|].
  destruct (String.eqb k key); simpl.
  - rewrite length_app. simpl. lia.
  - rewrite IH. lia.
Qed.

Lemma total_set_fresh (key : string) (m : EdgeMap.t) :
  EdgeMap.has key m = false ->
  totalEntries (EdgeMap.set key [] m) = totalEntries m.
Proof.
  unfold totalEntries.
  induction m as [|[k w] m IH]; simpl; intro H; [reflexivity|].
  destruct (String.eqb k key); [discriminate|]. simpl. now rewrite IH.
Qed.

Lemma has_set (key : string) (v : list Adjacent) (m : EdgeMap.t) :
  EdgeMap.has key (EdgeMap.set key v m) = true.
Proof.
  induction m as [|[k w] m IH]; simpl.
  - now rewrite String.eqb_refl.
  - destruct (String.eqb k key) eqn:E; simpl; rewrite E; [reflexivity | exact IH].
Qed.

Lemma entriesFor_snoc (k : string) (done : list (string * Adjacent))
    (kx : string * Adjacent) :
  entriesFor k (done ++ [kx])
  = entriesFor k done ++ (if String.eqb (fst kx) k then [snd kx] else []).
Proof.
  unfold entriesFor. rewrite filter_app, map_app. simpl.
  now destruct (String.eqb (fst kx) k).
Qed.

Lemma mapInvariant_step (acc : EdgeMap.t) (done : list (string * Adjacent))
    (kx : string * Adjacent) :
  mapInvariant acc done -> mapInvariant (addEntry acc kx) (done ++ [kx]).
Proof.
  intros (Hnd & Hget & Htot). destruct kx as [key x].
  unfold addEntry; simpl fst; simpl snd.
  destruct (EdgeMap.has key acc) eqn:Hhas.
  - repeat split.
    + now rewrite keys_push.
    + intro k. rewrite get_push, Hget. unfold lookupSpec.
      rewrite entriesFor_snoc. simpl fst; simpl snd.
      destruct (String.eqb_spec key k) as [->|Hk].
      * rewrite has_get, Hget in Hhas. unfold lookupSpec in Hhas.
        destruct (entriesFor k done) eqn:E; [discriminate|]. reflexivity.
      * rewrite app_nil_r. reflexivity.
    + rewrite total_push, Hhas, Htot, length_app. reflexivity.
  - repeat split.
    + rewrite keys_push, keys_set_fresh by assumption.
      apply NoDup_app; [assumption | repeat constructor; intros [] | ].
      intros a Ha [<-|[]]. apply has_in_keys in Ha. congruence.
    + intro k. rewrite get_push, get_set_fresh, Hget by assumption.
      unfold lookupSpec. rewrite entriesFor_snoc. simpl fst; simpl snd.
      destruct (String.eqb_spec key k) as [->|Hk].
      * rewrite has_get, Hget in Hhas. unfold lookupSpec in Hhas.
        destruct (entriesFor k done) eqn:E; [reflexivity | discriminate].
      * rewrite app_nil_r. reflexivity.
    + rewrite total_push, has_set, total_set_fresh, Htot, length_app by assumption.
      reflexivity.
Qed.

Lemma mapInvariant_fold (l : list (string * Adjacent)) :
  forall acc done,
    mapInvariant acc done -> mapInvariant (fold_left addEntry l acc) (done ++ l).
Proof.
  induction l as [|kx l IH]; intros acc done H; simpl.
  - now rewrite app_nil_r.
  - replace (done ++ kx :: l) with ((done ++ [kx]) ++ l)
      by (now rewrite <- app_assoc).
    apply IH. now apply mapInvariant_step.
Qed.

Lemma fold_flat_map {A B S : Type} (f : S -> B -> S) (g : A -> list B)
    (l : list A) :
  forall acc,
    fold_left (fun acc a => fold_left f (g a) acc) l acc
    = fold_left f (flat_map g l) acc.
Proof.
  induction l as [|a l IH]; intro acc; simpl; [reflexivity|].
  now rewrite fold_left_app, IH.
Qed.

Lemma buildEdgeToTris_entries (m : Mesh) :
  buildEdgeToTris m = fold_left addEntry (allEntries m) EdgeMap.empty.
Proof.
  unfold buildEdgeToTris, allEntries. rewrite <- fold_flat_map.
  reflexivity.
Qed.

Lemma buildEdgeToTris_invariant (m : Mesh) :
  mapInvariant (buildEdgeToTris m) (allEntries m).
Proof.
  rewrite buildEdgeToTris_entries.
  apply (mapInvariant_fold (allEntries m) EdgeMap.empty []).
  repeat split. constructor.
Qed.

Lemma in_get (k : string) (v : list Adjacent) (m : EdgeMap.t) :
  NoDup (map fst m) -> (In (k, v) m <-> EdgeMap.get k m = Some v).
Proof.
  induction m as [|[k' w] m IH]; simpl; intro Hnd.
  - split; [tauto | discriminate].
  - inversion Hnd as [|? ? Hnotin Hnd']; subst.
    destruct (String.eqb_spec k' k) as [->|Hk].
    + split.
      * intros [H|H]; [congruence|].
        exfalso. apply Hnotin. now apply (in_map fst) in H.
      * intros [= ->]. now left.
    + rewrite <- (IH Hnd'). split; [intros [H|H]; [congruence | assumption] | tauto].
Qed.

(** ** Keys of the map and edge slots *)

Lemma make_eqb (a b i j : N) :
  String.eqb (Key.make i j) (Key.make a b) = samePair a b (i, j).
Proof.
  destruct (String.eqb_spec (Key.make i j) (Key.make a b)) as [H|H];
    destruct (samePair a b (i, j)) eqn:E; try reflexivity.
  - apply make_eq_iff in H. congruence.
  - apply make_eq_iff in E. contradiction.
Qed.

Lemma filter_flat_map {A B : Type} (p : B -> bool) (g : A -> list B) (l : list A) :
  filter p (flat_map g l) = flat_map (fun a => filter p (g a)) l.
Proof.
  induction l as [|a l IH]; simpl; [reflexivity|].
  now rewrite filter_app, IH.
Qed.

Lemma length_filter_map {A B : Type} (p : B -> bool) (q : A -> bool)
    (h : A -> B) (l : list A) :
  (forall x, p (h x) = q x) ->
  List.length (filter p (map h l)) = List.length (filter q l).
Proof.
  intro H. induction l as [|x l IH]; simpl; [reflexivity|].
  rewrite H. destruct (q x); simpl; now rewrite IH.
Qed.

Lemma length_flat_map_ext {A B C : Type} (f : A -> list B) (g : A -> list C)
    (l : list A) :
  (forall a, In a l -> List.length (f a) = List.length (g a)) ->
  List.length (flat_map f l) = List.length (flat_map g l).
Proof.
  induction l as [|a l IH]; simpl; intro H; [reflexivity|].
  rewrite !length_app, H, IH by auto. reflexivity.
Qed.

Lemma entriesFor_slotCount (m : Mesh) (a b : N) :
  List.length (entriesFor (Key.make a b) (allEntries m)) = slotCount m a b.
Proof.
  unfold entriesFor, allEntries, slotCount, edgeSlots.
  rewrite length_map, !filter_flat_map.
  apply length_flat_map_ext. intros t _. unfold slotEntries.
  apply length_filter_map. intros [i j]. simpl. apply make_eqb.
Qed.

Lemma allEntries_key (m : Mesh) (k : string) (x : Adjacent) :
  In (k, x) (allEntries m) ->
  exists i j, In (i, j) (edgeSlots m) /\ k = Key.make i j.
Proof.
  unfold allEntries, edgeSlots, slotEntries. rewrite in_flat_map.
  intros (t & Ht & Hin). apply in_map_iff in Hin.
  destruct Hin as ([i j] & Heq & Hij). injection Heq as <- _.
  exists i, j. split; [|reflexivity].
  apply in_flat_map. now exists t.
Qed.

Lemma entriesFor_nonempty (k : string) (l : list (string * Adjacent)) :
  entriesFor k l <> [] -> exists x, In (k, x) l.
Proof.
  unfold entriesFor. intro H.
  destruct (filter (fun kx => String.eqb (fst kx) k) l) as [|[k' x] rest] eqn:E;
    [contradiction|].
  assert (Hin : In (k', x) (filter (fun kx => String.eqb (fst kx) k) l))
    by (rewrite E; now left).
  apply filter_In in Hin. destruct Hin as [Hin Hk].
  simpl in Hk. apply String.eqb_eq in Hk. subst. now exists x.
Qed.

(** Every entry of the finished map sits under the key of some edge slot and
    holds as many adjacency records as that pair has slots. *)
Lemma buildEdgeToTris_entry (m : Mesh) (k : string) (v : list Adjacent) :
  In (k, v) (buildEdgeToTris m) ->
  exists i j, In (i, j) (edgeSlots m) /\ k = Key.make i j /\
              List.length v = slotCount m i j.
Proof.
  destruct (buildEdgeToTris_invariant m) as (Hnd & Hget & _).
  intro Hin. apply (in_get _ _ _ Hnd) in Hin. rewrite Hget in Hin.
  unfold lookupSpec in Hin.
  destruct (entriesFor k (allEntries m)) as [|x xs] eqn:E; [discriminate|].
  injection Hin as <-.
  destruct (entriesFor_nonempty k (allEntries m)) as [y Hy]; [congruence|].
  destruct (allEntries_key m k y Hy) as (i & j & Hij & ->).
  exists i, j. repeat split; [assumption|].
  now rewrite <- E, entriesFor_slotCount.
Qed.

Lemma buildEdgeToTris_lookup (m : Mesh) (a b : N) (v : list Adjacent) :
  v <> [] ->
  (In (Key.make a b, v) (buildEdgeToTris m)
   <-> v = entriesFor (Key.make a b) (allEntries m)).
Proof.
  destruct (buildEdgeToTris_invariant m) as (Hnd & Hget & _).
  intro Hv. rewrite (in_get _ _ _ Hnd), Hget. unfold lookupSpec.
  destruct (entriesFor (Key.make a b) (allEntries m)) eqn:E.
  - split; [discriminate | congruence].
  - split; congruence.
Qed.

(** ** [collectEdges] *)

Lemma collectEdges_In (m : Mesh) (e : MeshEdge) (entries : EdgeMap.t) :
  In e (collectEdges m entries)
  <-> exists entry, In entry entries /\ edgeOfEntry m entry = Some e.
Proof.
  induction entries as [|entry rest IH]; simpl.
  - split; [tauto | intros (? & [] & _)].
  - destruct (edgeOfEntry m entry) as [e'|] eqn:E; simpl; rewrite IH.
    + split.
      * intros [<-|(x & Hx & Hex)]; [exists entry; auto | exists x; auto].
      * intros (x & [<-|Hx] & Hex); [left; congruence | right; now exists x].
    + split.
      * intros (x & Hx & Hex). exists x; auto.
      * intros (x & [<-|Hx] & Hex); [congruence | now exists x].
Qed.

Lemma edgeOfEntry_two (m : Mesh) (k : string) (v : list Adjacent) (e : MeshEdge) :
  edgeOfEntry m (k, v) = Some e -> List.length v = 2%nat.
Proof.
  simpl. destruct v as [|t0 [|t1 [|t2 v]]]; try discriminate. reflexivity.
Qed.

Lemma edgeOfEntry_make (m : Mesh) (i j : N) (t0 t1 : Adjacent) :
  exists e, edgeOfEntry m (Key.make i j, [t0; t1]) = Some e /\
            v0 e = Some (N.min i j) /\ v1 e = Some (N.max i j) /\
            n0 e = normal t0 /\ n1 e = normal t1 /\
            dihedralAngle e = dihedral (normal t0) (normal t1).
Proof.
  eexists. split; [reflexivity|].
  cbn [v0 v1 n0 n1 dihedralAngle].
  rewrite make_template, split_template. cbn [nth_error].
  rewrite !parseInt_toString. repeat split.
Qed.

Lemma collectEdges_length (m : Mesh) (entries : EdgeMap.t) :
  Forall (fun kv => List.length (snd kv) = 2%nat) entries ->
  List.length (collectEdges m entries) = List.length entries.
Proof.
  induction 1 as [|[k v] rest Hv _ IH]; simpl; [reflexivity|].
  simpl in Hv. destruct v as [|t0 [|t1 [|t2 v]]]; try discriminate.
  simpl. now rewrite IH.
Qed.

Lemma totalEntries_two (entries : EdgeMap.t) :
  Forall (fun kv => List.length (snd kv) = 2%nat) entries ->
  totalEntries entries = (2 * List.length entries)%nat.
Proof.
  unfold totalEntries. induction 1 as [|kv rest Hv _ IH]; simpl; [reflexivity|].
  rewrite Hv, IH. lia.
Qed.

Lemma allEntries_length (m : Mesh) :
  List.length (allEntries m) = (3 * numTris m)%nat.
Proof.
  unfold allEntries.
  rewrite (flat_map_constant_length (c := 3)), length_seq by reflexivity. lia.
Qed.

(** ** Which pairs become edges *)

Lemma hasEdge_slotCount (m : Mesh) (a b : N) :
  hasEdge m a b <-> slotCount m a b = 2%nat.
Proof.
  unfold hasEdge, extractEdges. split.
  - intros (e & Hin & Hv0 & Hv1).
    apply collectEdges_In in Hin. destruct Hin as ([k v] & Hkv & He).
    pose proof (edgeOfEntry_two _ _ _ _ He) as Hlen.
    destruct (buildEdgeToTris_entry m k v Hkv) as (i & j & _ & -> & Hcount).
    destruct v as [|t0 [|t1 [|t2 v]]]; try discriminate.
    destruct (edgeOfEntry_make m i j t0 t1) as (e' & He' & Hv0' & Hv1' & _).
    assert (e' = e) by congruence. subst e'.
    assert (Hsame : samePair a b (i, j) = true)
      by (apply samePair_min_max; split; congruence).
    apply make_eq_iff in Hsame.
    rewrite <- entriesFor_slotCount, <- Hsame, entriesFor_slotCount, <- Hcount.
    reflexivity.
  - intro Hcount. rewrite <- entriesFor_slotCount in Hcount.
    destruct (entriesFor (Key.make a b) (allEntries m))
      as [|t0 [|t1 [|t2 v]]] eqn:E; try discriminate.
    assert (Hin : In (Key.make a b, [t0; t1]) (buildEdgeToTris m))
      by (apply buildEdgeToTris_lookup; [discriminate | now rewrite E]).
    destruct (edgeOfEntry_make m a b t0 t1) as (e & He & Hv0 & Hv1 & _).
    exists e. repeat split; try assumption.
    apply collectEdges_In. now exists (Key.make a b, [t0; t1]).
Qed.

Lemma slots_of_triangle (m : Mesh) (a b : N) (t : nat) :
  distinctCorners m t = true ->
  List.length (filter (samePair a b) (triEdges m t))
  = if triHasPair m a b t then 1%nat else 0%nat.
Proof.
  unfold distinctCorners, triHasPair, triEdges, samePair.
  generalize (triIndex m t 0), (triIndex m t 1), (triIndex m t 2).
  intros i0 i1 i2. cbn [fst snd filter existsb].
  rewrite !andb_true_iff, !negb_true_iff, !N.eqb_neq.
  intros [[H01 H12] H20].
  destruct (N.eqb_spec i0 a), (N.eqb_spec i0 b), (N.eqb_spec i1 a),
    (N.eqb_spec i1 b), (N.eqb_spec i2 a), (N.eqb_spec i2 b);
    cbn; try reflexivity; exfalso; congruence.
Qed.

Lemma length_flat_map_filter {A B : Type} (f : A -> list B) (q : A -> bool)
    (l : list A) :
  (forall t, In t l -> List.length (f t) = if q t then 1%nat else 0%nat) ->
  List.length (flat_map f l) = List.length (filter q l).
Proof.
  induction l as [|t l IH]; simpl; intro H; [reflexivity|].
  rewrite length_app, H, IH by auto.
  destruct (q t); reflexivity.
Qed.

Lemma slotCount_triCount (m : Mesh) (a b : N) :
  nondegenerate m = true -> slotCount m a b = triCount m a b.
Proof.
  unfold nondegenerate, slotCount, triCount, edgeSlots. intro H.
  rewrite forallb_forall in H. rewrite filter_flat_map.
  apply length_flat_map_filter. intros t Ht.
  apply slots_of_triangle. now apply H.
Qed.

Lemma nondegenerate_slot (m : Mesh) (i j : N) :
  nondegenerate m = true -> In (i, j) (edgeSlots m) -> i <> j.
Proof.
  unfold nondegenerate, edgeSlots. intros H Hin.
  rewrite forallb_forall in H. apply in_flat_map in Hin.
  destruct Hin as (t & Ht & Hin). specialize (H t Ht).
  unfold distinctCorners in H.
  rewrite !andb_true_iff, !negb_true_iff, !N.eqb_neq in H.
  destruct H as [[H01 H12] H20]. unfold triEdges in Hin. simpl in Hin.
  destruct Hin as [Heq|[Heq|[Heq|[]]]]; injection Heq as <- <-; assumption.
Qed.

(** The indices stored in an extracted edge: the smaller and the larger
    index of some edge slot. *)
Lemma extractEdges_indices (m : Mesh) (e : MeshEdge) :
  In e (extractEdges m) ->
  exists i j, In (i, j) (edgeSlots m) /\
              v0 e = Some (N.min i j) /\ v1 e = Some (N.max i j) /\
              dihedralAngle e = dihedral (n0 e) (n1 e).
Proof.
  unfold extractEdges. intro Hin.
  apply collectEdges_In in Hin. destruct Hin as ([k v] & Hkv & He).
  pose proof (edgeOfEntry_two _ _ _ _ He) as Hlen.
  destruct (buildEdgeToTris_entry m k v Hkv) as (i & j & Hij & -> & _).
  destruct v as [|t0 [|t1 [|t2 v]]]; try discriminate.
  destruct (edgeOfEntry_make m i j t0 t1)
    as (e' & He' & Hv0 & Hv1 & Hn0 & Hn1 & Hd).
  assert (e' = e) by congruence. subst e'.
  exists i, j. repeat split; try assumption. congruence.
Qed.

Lemma extractEdges_count (m : Mesh) :
  (forall i j, In (i, j) (edgeSlots m) -> slotCount m i j = 2%nat) ->
  (2 * List.length (extractEdges m) = 3 * numTris m)%nat.
Proof.
  intro H. unfold extractEdges.
  assert (Hall : Forall (fun kv => List.length (snd kv) = 2%nat) (buildEdgeToTris m)).
  { apply Forall_forall. intros [k v] Hkv.
    destruct (buildEdgeToTris_entry m k v Hkv) as (i & j & Hij & _ & Hlen).
    simpl. rewrite Hlen. now apply H. }
  rewrite (collectEdges_length _ _ Hall), <- (totalEntries_two _ Hall).
  destruct (buildEdgeToTris_invariant m) as (_ & _ & Htot).
  rewrite Htot. apply allEntries_length.
Qed.

(** ** Comparisons *)

Lemma ltb_lt (x y : R) : Num.ltb x y = true <-> (x < y)%R.
Proof. unfold Num.ltb. destruct (Rlt_dec x y); split; auto; discriminate. Qed.

Lemma ltb_ge (x y : R) : Num.ltb x y = false <-> (y <= x)%R.
Proof.
  unfold Num.ltb. destruct (Rlt_dec x y); split; try discriminate; try lra; auto.
Qed.

Lemma leb_le (x y : R) : Num.leb x y = true <-> (x <= y)%R.
Proof. unfold Num.leb. destruct (Rle_dec x y); split; auto; discriminate. Qed.

Lemma leb_gt (x y : R) : Num.leb x y = false <-> (y < x)%R.
Proof.
  unfold Num.leb. destruct (Rle_dec x y); split; try discriminate; try lra; auto.
Qed.

Lemma gtb_gt (x y : R) : Num.gtb x y = true <-> (x > y)%R.
Proof. unfold Num.gtb. rewrite ltb_lt. lra. Qed.

(** ** Angle selection *)

Lemma selectByAngle_In (edges : list MeshEdge) (s : AngleEdgeSelection)
    (e : MeshEdge) :
  In e (selectByAngle edges s)
  <-> In e edges /\ (dihedralAngle e <= 180 - minAngle s)%R.
Proof. unfold selectByAngle. now rewrite filter_In, leb_le. Qed.

(** ** Point selection *)

Section ClosestEdge.

Variable p : Vec3.
Variable maxDist : Num.Ext.

Lemma le_ext_trans (x y : R) :
  Num.le_ext x maxDist = true -> Num.le_ext y maxDist = false -> (x <= y)%R.
Proof.
  destruct maxDist as [d|]; simpl; [|discriminate].
  rewrite leb_le, leb_gt. lra.
Qed.

Lemma closestSoFar_step (acc : option MeshEdge * Num.Ext)
    (done : list MeshEdge) (edge : MeshEdge) :
  closestSoFar p maxDist acc done ->
  closestSoFar p maxDist (closerEdge p maxDist acc edge) (done ++ [edge]).
Proof.
  destruct acc as [[c|] cd]; unfold closestSoFar, closerEdge; simpl.
  - intros (Hin & -> & Hmax & Hmin). simpl.
    destruct (Num.ltb (edgeDistance p edge) (edgeDistance p c)) eqn:Hlt;
      [destruct (Num.le_ext (edgeDistance p edge) maxDist) eqn:Hle|]; simpl.
    + apply ltb_lt in Hlt. repeat split; auto.
      * apply in_or_app. right. now left.
      * intros e He. apply in_app_or in He.
        destruct He as [He|[<-|[]]]; [specialize (Hmin e He)|]; lra.
    + repeat split; auto.
      * apply in_or_app. now left.
      * intros e He. apply in_app_or in He.
        destruct He as [He|[<-|[]]]; [now apply Hmin|].
        now apply le_ext_trans.
    + apply ltb_ge in Hlt. repeat split; auto.
      * apply in_or_app. now left.
      * intros e He. apply in_app_or in He.
        destruct He as [He|[<-|[]]]; [now apply Hmin | assumption].
  - intros (-> & Hnone). simpl.
    destruct (Num.le_ext (edgeDistance p edge) maxDist) eqn:Hle; simpl.
    + repeat split; auto.
      * apply in_or_app. right. now left.
      * intros e He. apply in_app_or in He.
        destruct He as [He|[<-|[]]]; [|lra].
        apply le_ext_trans; auto.
    + split; [reflexivity|].
      intros e He. apply in_app_or in He.
      destruct He as [He|[<-|[]]]; auto.
Qed.

Lemma closestSoFar_fold (edges : list MeshEdge) :
  forall acc done,
    closestSoFar p maxDist acc done ->
    closestSoFar p maxDist (fold_left (closerEdge p maxDist) edges acc) (done ++ edges).
Proof.
  induction edges as [|edge edges IH]; intros acc done H; simpl.
  - now rewrite app_nil_r.
  - replace (done ++ edge :: edges) with ((done ++ [edge]) ++ edges)
      by (now rewrite <- app_assoc).
    apply IH. now apply closestSoFar_step.
Qed.

Lemma closestSoFar_all (edges : list MeshEdge) :
  closestSoFar p maxDist (fold_left (closerEdge p maxDist) edges (None, Num.Infinity)) edges.
Proof.
  apply (closestSoFar_fold edges (None, Num.Infinity) []).
  split; [reflexivity | intros e []].
Qed.

End ClosestEdge.

(** The bound of a point selection: [maxDistance ?? Infinity]. *)
Lemma selectByPoint_spec (edges : list MeshEdge) (s : PointEdgeSelection) :
  let maxDist := match maxDistance s with
                 | Some d => Num.Fin d
                 | None => Num.Infinity
                 end in
  match selectByPoint edges s with
  | [] => forall e, In e edges -> Num.le_ext (edgeDistance (point s) e) maxDist = false
  | [c] => In c edges /\
           Num.le_ext (edgeDistance (point s) c) maxDist = true /\
           forall e, In e edges ->
                     (edgeDistance (point s) c <= edgeDistance (point s) e)%R
  | _ => False
  end.
Proof.
  intro maxDist. unfold selectByPoint. fold maxDist.
  pose proof (closestSoFar_all (point s) maxDist edges) as H.
  unfold closestSoFar in H.
  destruct (fst (fold_left (closerEdge (point s) maxDist) edges (None, Num.Infinity)))
    as [c|].
  - destruct H as (Hin & _ & Hmax & Hmin). auto.
  - destruct H as (_ & Hnone). exact Hnone.
Qed.

(** ** Dihedral angles *)

Lemma clampedDot_bounds (a b : Vec3) : (-1 <= clampedDot a b <= 1)%R.
Proof.
  unfold clampedDot, Num.max, Num.min.
  split.
  - apply Rmax_l.
  - apply Rmax_lub; [lra | apply Rmin_l].
Qed.

(** [Math.acos] is NaN exactly outside [-1, 1]. *)
Lemma mathAcos_nan (x : R) : Num.mathAcos x = None <-> (x < -1 \/ 1 < x)%R.
Proof.
  unfold Num.mathAcos.
  destruct (Num.leb (-1) x) eqn:Hlo; destruct (Num.leb x 1) eqn:Hhi; simpl;
    try apply leb_le in Hlo; try apply leb_gt in Hlo;
    try apply leb_le in Hhi; try apply leb_gt in Hhi;
    split; intro H; try discriminate; try lra; auto.
Qed.

Lemma mathAcos_domain (x : R) :
  (-1 <= x <= 1)%R -> Num.mathAcos x = Some (acos x).
Proof.
  intros [Hlo Hhi]. unfold Num.mathAcos.
  apply leb_le in Hlo. apply leb_le in Hhi. now rewrite Hlo, Hhi.
Qed.

Lemma mathAcos_clampedDot (a b : Vec3) :
  Num.mathAcos (clampedDot a b) = Some (acos (clampedDot a b)).
Proof. apply mathAcos_domain, clampedDot_bounds. Qed.

(** The angle as JavaScript computes it is the number [dihedral]. *)
Lemma dihedralNumber_dihedral (a b : Vec3) :
  dihedralNumber a b = Some (dihedral a b).
Proof. unfold dihedralNumber. now rewrite mathAcos_clampedDot. Qed.

Lemma dihedral_bounds (a b : Vec3) : (0 <= dihedral a b <= 180)%R.
Proof.
  unfold dihedral.
  pose proof (acos_bound (clampedDot a b)) as [Hlo Hhi].
  pose proof PI_RGT_0 as Hpi.
  assert (Hk : (0 < 180 / PI)%R) by (apply Rdiv_lt_0_compat; lra).
  split.
  - apply Rmult_le_pos; lra.
  - replace 180%R with (PI * (180 / PI))%R at 2 by (field; lra).
    apply Rmult_le_compat_r; lra.
Qed.

(** ** Runs *)

Section RunFacts.

Context {Manifold : Type} {K : ManifoldKernel Manifold}.

Lemma bind_returned {A B : Type} (log : list (Event Manifold)) (a : A)
    (k : A -> Run Manifold B) :
  bind (log, Returned a) k = (log ++ fst (k a), snd (k a)).
Proof. unfold bind. now destruct (k a). Qed.

Lemma run_eta {A : Type} (c : Run Manifold A) : c = (fst c, snd c).
Proof. now destruct c. Qed.

Lemma forEach_app {A S : Type} (body : S -> A -> Run Manifold S) (step : S -> A -> S)
    (logOf : S -> A -> list (Event Manifold)) :
  (forall acc x, body acc x = (logOf acc x, Returned (step acc x))) ->
  forall xs acc, snd (forEach body xs acc) = Returned (fold_left step xs acc).
Proof.
  intros H xs. induction xs as [|x xs IH]; intro acc; simpl; [reflexivity|].
  rewrite H, bind_returned. simpl. apply IH.
Qed.

(** *** The tube along a path *)

Lemma placeSphere_run (r : R) (seg : option N) (spheres : list Manifold) (p : Vec3) :
  placeSphere r seg spheres p
  = ([ESphere r seg; ETranslate (sphere r seg) p],
     Returned (spheres ++ [translate (sphere r seg) p])).
Proof. reflexivity. Qed.

Lemma placeSpheres_value (r : R) (seg : option N) (path : list Vec3) :
  forall spheres,
    snd (forEach (placeSphere r seg) path spheres)
    = Returned (spheres ++ spheresAt r seg path).
Proof.
  induction path as [|p path IH]; intro spheres; cbn [forEach spheresAt map].
  - simpl. now rewrite app_nil_r.
  - rewrite placeSphere_run, bind_returned. cbn [snd]. rewrite IH.
    now rewrite <- app_assoc.
Qed.

Lemma hullNeighbours_value (spheres : list Manifold) :
  forall segments_,
    snd (hullNeighbours spheres segments_)
    = Returned (segments_ ++ hullsOfNeighbours spheres).
Proof.
  induction spheres as [|a rest IH]; intro segments_.
  - simpl. now rewrite app_nil_r.
  - destruct rest as [|b rest'].
    + simpl. now rewrite app_nil_r.
    + change (hullNeighbours (a :: b :: rest') segments_)
        with (bind (hullM [a; b])
                   (fun segment => hullNeighbours (b :: rest') (segments_ ++ [segment]))).
      change (hullM [a; b]) with ([EHull [a; b]], Returned (hull [a; b])).
      rewrite bind_returned. cbn [snd]. rewrite IH.
      change (hullsOfNeighbours (a :: b :: rest'))
        with (hull [a; b] :: hullsOfNeighbours (b :: rest')).
      now rewrite <- app_assoc.
Qed.

Lemma joined_value (segments_ : list Manifold) :
  snd (match segments_ with
       | [segment] => ret segment
       | _ => unionM segments_
       end : Run Manifold Manifold) = Returned (joined segments_).
Proof. destruct segments_ as [|s [|s' rest]]; reflexivity. Qed.

Lemma pipeAlongPath_short (path : list Vec3) (r : R) (seg : option N) :
  (List.length path < 2)%nat ->
  pipeAlongPath path r seg = ([], Thrown "Path must have at least 2 points").
Proof.
  intro H. unfold pipeAlongPath.
  now rewrite (proj2 (Nat.ltb_lt _ _) H).
Qed.

Lemma pipeAlongPath_value (path : list Vec3) (r : R) (seg : option N) :
  (2 <= List.length path)%nat ->
  snd (pipeAlongPath path r seg) = Returned (tubeAlong path r seg).
Proof.
  intro H. unfold pipeAlongPath, tubeAlong.
  rewrite (proj2 (Nat.ltb_ge _ _) H).
  rewrite (run_eta (forEach (placeSphere r seg) path [])), placeSpheres_value.
  rewrite bind_returned. cbn [snd app].
  rewrite (run_eta (hullNeighbours (spheresAt r seg path) [])), hullNeighbours_value.
  rewrite bind_returned. cbn [snd app].
  apply joined_value.
Qed.

Lemma extendPath_length (path : list Vec3) (r f : R) :
  List.length (extendPath path r f) = (List.length path + 2)%nat.
Proof. unfold extendPath. rewrite !length_app. simpl. lia. Qed.

Lemma pipeAlongPathExtended_short (path : list Vec3) (r : R)
    (f : option R) (seg : option N) :
  (List.length path < 2)%nat ->
  pipeAlongPathExtended path r f seg
  = ([], Thrown "Path must have at least 2 points").
Proof.
  intro H. unfold pipeAlongPathExtended.
  now rewrite (proj2 (Nat.ltb_lt _ _) H).
Qed.

Lemma pipeAlongPathExtended_value (path : list Vec3) (r : R)
    (f : option R) (seg : option N) :
  (2 <= List.length path)%nat ->
  snd (pipeAlongPathExtended path r f seg)
  = Returned (tubeAlong (extendPath path r (match f with Some f => f | None => 0.1%R end))
                        r seg).
Proof.
  intro H. unfold pipeAlongPathExtended.
  rewrite (proj2 (Nat.ltb_ge _ _) H).
  apply pipeAlongPath_value. rewrite extendPath_length. lia.
Qed.

End RunFacts.

(** ** The fillet orchestrator *)

Section FilletFacts.

Context {Manifold : Type} {K : ManifoldKernel Manifold}.

Lemma createFilletCuttingTool_cases (edge : MeshEdge) (r : R) (seg : option N) :
  createFilletCuttingTool edge r seg = ([], Returned None) \/
  exists log tool,
    createFilletCuttingTool edge r seg = (log, Returned (Some tool)) /\
    Forall insideToolConstruction log.
Proof.
  unfold createFilletCuttingTool.
  destruct (p0 edge) as [[x0 y0] z0], (p1 edge) as [[x1 y1] z1].
  destruct (Num.ltb _ _); [now left | right].
  destruct (n0 edge) as [[n0x n0y] n0z], (n1 edge) as [[n1x n1y] n1z].
  eexists. eexists. split; [reflexivity|].
  repeat constructor. simpl. eauto.
Qed.

Lemma qualifies_incl (r : R) (seg : option N) (edges edges' : list MeshEdge)
    (tool : Manifold) :
  incl edges edges' -> qualifies r seg edges tool -> qualifies r seg edges' tool.
Proof.
  intros Hincl (edge & Hin & H). exists edge. split; [now apply Hincl | exact H].
Qed.

Lemma addCuttingTool_run (r : R) (seg : option N) (cuttingTools : list Manifold)
    (edge : MeshEdge) :
  exists log added,
    addCuttingTool r seg cuttingTools edge = (log, Returned (cuttingTools ++ added)) /\
    Forall insideToolConstruction log /\
    Forall (qualifies r seg [edge]) added.
Proof.
  unfold addCuttingTool.
  destruct (Num.gtb (dihedralAngle edge) 5) eqn:Hlo; cbn [andb];
    [destruct (Num.ltb (dihedralAngle edge) 175) eqn:Hhi|];
    try (exists [], []; rewrite app_nil_r; repeat split; constructor).
  apply gtb_gt in Hlo. apply ltb_lt in Hhi.
  destruct (createFilletCuttingTool_cases edge r seg) as [E|(log & tool & E & Hlog)].
  - rewrite E, bind_returned. simpl.
    exists [], []. rewrite app_nil_r. repeat split; constructor.
  - rewrite E, bind_returned. cbn [fst snd].
    change (volumeM tool) with ([EVolume tool], Returned (volume tool)).
    rewrite bind_returned. cbn [fst snd].
    destruct (Num.gtb (volume tool) 1e-9) eqn:Hvol; simpl.
    + exists (log ++ [EVolume tool]), [tool]. repeat split.
      * apply Forall_app. split; [assumption | repeat constructor].
      * constructor; [|constructor].
        exists edge. repeat split; try lra; [now left | now rewrite E |].
        now apply gtb_gt.
    + exists (log ++ [EVolume tool]), []. rewrite app_nil_r. repeat split.
      * apply Forall_app. split; [assumption | repeat constructor].
      * constructor.
Qed.

Lemma cuttingTools_run (r : R) (seg : option N) (edges : list MeshEdge) :
  forall cuttingTools,
  exists log added,
    forEach (addCuttingTool r seg) edges cuttingTools
    = (log, Returned (cuttingTools ++ added)) /\
    Forall insideToolConstruction log /\
    Forall (qualifies r seg edges) added.
Proof.
  induction edges as [|edge edges IH]; intro cuttingTools; cbn [forEach].
  - exists [], []. rewrite app_nil_r. repeat split; constructor.
  - destruct (addCuttingTool_run r seg cuttingTools edge)
      as (log1 & added1 & E1 & Hlog1 & Hq1).
    destruct (IH (cuttingTools ++ added1)) as (log2 & added2 & E2 & Hlog2 & Hq2).
    rewrite E1, bind_returned, E2. cbn [fst snd].
    exists (log1 ++ log2), (added1 ++ added2). rewrite app_assoc.
    repeat split.
    + apply Forall_app. now split.
    + apply Forall_app. split.
      * eapply Forall_impl; [|exact Hq1]. intro tool.
        apply qualifies_incl. intros e [<-|[]]. now left.
      * eapply Forall_impl; [|exact Hq2]. intro tool.
        apply qualifies_incl. intros e He. now right.
Qed.

Lemma subtractTools_run (cuttingTools : list Manifold) :
  forall result,
    subtractTools cuttingTools result
    = (subtractLog result cuttingTools,
       Returned (fold_left subtract cuttingTools result)).
Proof.
  unfold subtractTools.
  induction cuttingTools as [|tool rest IH]; intro result; cbn [forEach].
  - reflexivity.
  - change (subtractM result tool)
      with ([ESubtract result tool], Returned (subtract result tool)).
    rewrite bind_returned, IH. reflexivity.
Qed.

Lemma fillet_rejects (mf : Manifold) (options : FilletOptions) :
  (radius options <= 0)%R ->
  filletWithManifold mf options = ([], Thrown "Fillet radius must be positive").
Proof.
  intro H. unfold filletWithManifold.
  now rewrite (proj2 (leb_le _ _) H).
Qed.

Lemma fillet_nothing_to_do (mf : Manifold) (options : FilletOptions) :
  (0 < radius options)%R ->
  extractEdges (getMesh mf) = [] \/
  selectEdges (extractEdges (getMesh mf)) (selection options) = [] ->
  exists msg,
    filletWithManifold mf options = ([EGetMesh mf; EWarn msg], Returned mf).
Proof.
  intros Hr H. unfold filletWithManifold.
  rewrite (proj2 (leb_gt _ _) Hr).
  change (extractEdgesM mf) with ([EGetMesh mf], Returned (extractEdges (getMesh mf))).
  rewrite bind_returned.
  destruct (extractEdges (getMesh mf)) as [|e es] eqn:E.
  - eexists. reflexivity.
  - destruct H as [H|H]; [discriminate|].
    cbn [List.length Nat.eqb]. rewrite H. eexists. reflexivity.
Qed.

Lemma fillet_run (mf : Manifold) (options : FilletOptions) :
  (0 < radius options)%R ->
  exists prefix tools,
    filletWithManifold mf options
    = (prefix ++ subtractLog mf tools, Returned (fold_left subtract tools mf)) /\
    Forall (qualifies (radius options) (segmentsOrDefault options)
                      (selectEdges (extractEdges (getMesh mf)) (selection options)))
           tools /\
    Forall insideToolConstruction prefix.
Proof.
  intro Hr. unfold filletWithManifold.
  rewrite (proj2 (leb_gt _ _) Hr).
  change (extractEdgesM mf) with ([EGetMesh mf], Returned (extractEdges (getMesh mf))).
  rewrite bind_returned.
  set (allEdges := extractEdges (getMesh mf)).
  set (selected := selectEdges allEdges (selection options)).
  destruct (List.length allEdges =? 0)%nat.
  { eexists. exists []. simpl. rewrite app_nil_r.
    split; [reflexivity|]. split; repeat constructor. }
  destruct (List.length selected =? 0)%nat.
  { eexists. exists []. simpl. rewrite app_nil_r.
    split; [reflexivity|]. split; repeat constructor. }
  destruct (cuttingTools_run (radius options) (segmentsOrDefault options) selected [])
    as (log & tools & E & Hlog & Hq).
  cbn [app] in E.
  change (emit (ELog "fillet: Found edges to fillet" (List.length selected)))
    with ([ELog (Manifold := Manifold) "fillet: Found edges to fillet"
                (List.length selected)], Returned tt).
  rewrite bind_returned, E, bind_returned. cbn [fst snd].
  destruct (0 <? List.length tools)%nat eqn:Hn.
  - change (emit (ELog "fillet: Subtracting tools sequentially" (List.length tools)))
      with ([ELog (Manifold := Manifold) "fillet: Subtracting tools sequentially"
                  (List.length tools)], Returned tt).
    rewrite bind_returned, subtractTools_run. cbn [fst snd].
    eexists. exists tools. split.
    + rewrite !app_assoc. reflexivity.
    + split; [assumption|].
      repeat first [assumption | apply Forall_app; split | constructor].
  - apply Nat.ltb_ge in Hn. destruct tools; [|simpl in Hn; lia].
    eexists. exists []. simpl. rewrite !app_nil_r.
    split; [reflexivity|]. split; [constructor|].
    repeat first [assumption | apply Forall_app; split | constructor].
Qed.

End FilletFacts.

(** ** Edge extraction: the claims *)

Lemma le_ext_iff (x : R) (y : Num.Ext) : Num.le_ext x y = true <-> Num.LeExt x y.
Proof. destruct y; simpl; [apply leb_le | tauto]. Qed.

Lemma le_ext_false_iff (x : R) (y : Num.Ext) :
  Num.le_ext x y = false <-> ~ Num.LeExt x y.
Proof.
  rewrite <- le_ext_iff. destruct (Num.le_ext x y); split; congruence.
Qed.

(** C3.  For every mesh of the kernel, [extractEdges] returns an edge for
    the unordered pair [{a, b}] exactly when the pair is an edge of exactly
    two triangles; a boundary pair (one triangle) and a non-manifold pair
    (three or more) yield no edge.  [extractEdges] is a total function: no
    mesh makes it fail. *)
Theorem extractEdges_iff_two_triangles (m : Mesh) (a b : N) :
  nondegenerate m = true ->
  (hasEdge m a b <-> triCount m a b = 2%nat) /\
  (triCount m a b = 1%nat -> ~ hasEdge m a b) /\
  ((3 <= triCount m a b)%nat -> ~ hasEdge m a b).
Proof.
  intro Hnd.
  assert (H : hasEdge m a b <-> triCount m a b = 2%nat).
  { rewrite <- (slotCount_triCount m a b Hnd). apply hasEdge_slotCount. }
  split; [exact H|].
  split; intros Hc He; apply H in He; lia.
Qed.

(** The mesh [corner]: the pair {0, 1} is the one shared edge. *)
Lemma extractEdges_iff_two_triangles_corner :
  (hasEdge corner 0 1 <-> triCount corner 0 1 = 2%nat) /\
  (triCount corner 0 1 = 1%nat -> ~ hasEdge corner 0 1) /\
  ((3 <= triCount corner 0 1)%nat -> ~ hasEdge corner 0 1).
Proof.
  apply (extractEdges_iff_two_triangles corner 0 1). vm_compute. reflexivity.
Defined.

(** C4.  For every mesh of the kernel in which every pair that is an edge of
    some triangle is an edge of exactly two, the number of extracted edges
    is [3 * numTris / 2] (and the division is exact). *)
Theorem extractEdges_closed_count (m : Mesh) :
  nondegenerate m = true ->
  closedMesh m = true ->
  List.length (extractEdges m) = (3 * numTris m / 2)%nat /\
  (2 * List.length (extractEdges m) = 3 * numTris m)%nat.
Proof.
  intros Hnd Hclosed.
  assert (H : (2 * List.length (extractEdges m) = 3 * numTris m)%nat).
  { apply extractEdges_count. intros i j Hij.
    rewrite (slotCount_triCount m i j Hnd).
    unfold closedMesh in Hclosed. rewrite forallb_forall in Hclosed.
    specialize (Hclosed (i, j) Hij). simpl in Hclosed.
    now apply Nat.eqb_eq in Hclosed. }
  split; [|exact H].
  rewrite <- H, Nat.mul_comm, Nat.div_mul by discriminate. reflexivity.
Qed.

(** The tetrahedron: 4 triangles, 6 edges. *)
Lemma extractEdges_closed_count_tetrahedron :
  List.length (extractEdges tetrahedron) = (3 * numTris tetrahedron / 2)%nat /\
  (2 * List.length (extractEdges tetrahedron) = 3 * numTris tetrahedron)%nat.
Proof.
  apply (extractEdges_closed_count tetrahedron); vm_compute; reflexivity.
Defined.

(** C9.  For every extracted edge, [Math.acos(clampedDot) * (180 / Math.PI)]
    on its two normals is a number, not NaN, and that number is the stored
    [dihedralAngle]; it equals [acos(max(-1, min(1, dot(n0, n1)))) * (180 / PI)]
    and lies in [0, 180].  Whatever the two normals are, the clamped dot
    product is in the domain of [Math.acos] and the angle computed from it
    is a number in [0, 180]; [Math.acos] of a dot product that is not
    clamped is NaN as soon as the product is below -1 or above 1. *)
Theorem extractEdges_dihedral_bounds (m : Mesh) :
  Forall (fun e =>
            dihedralNumber (n0 e) (n1 e) = Some (dihedralAngle e) /\
            dihedralAngle e
            = (acos (Num.max (-1) (Num.min 1 (dot3 (n0 e) (n1 e)))) * (180 / PI))%R /\
            (0 <= dihedralAngle e <= 180)%R)
         (extractEdges m) /\
  (forall a b : Vec3,
      Num.mathAcos (clampedDot a b) <> None /\
      exists angle, dihedralNumber a b = Some angle /\ (0 <= angle <= 180)%R) /\
  (forall a b : Vec3,
      (dot3 a b < -1 \/ 1 < dot3 a b)%R -> Num.mathAcos (dot3 a b) = None).
Proof.
  split; [|split].
  - apply Forall_forall. intros e He.
    destruct (extractEdges_indices m e He) as (_ & _ & _ & _ & _ & Hd).
    split; [|split].
    + rewrite Hd. apply dihedralNumber_dihedral.
    + exact Hd.
    + rewrite Hd. apply dihedral_bounds.
  - intros a b. split.
    + rewrite mathAcos_clampedDot. discriminate.
    + exists (dihedral a b).
      split; [apply dihedralNumber_dihedral | apply dihedral_bounds].
  - intros a b H. apply mathAcos_nan. exact H.
Qed.

(** C10.  For every mesh of the kernel, every extracted edge stores two
    indices (never NaN) with [v0 < v1]: the key is built from the smaller
    and the larger index and parsed back in that order. *)
Theorem extractEdges_ordered (m : Mesh) :
  nondegenerate m = true ->
  Forall (fun e => exists a b, v0 e = Some a /\ v1 e = Some b /\ (a < b)%N)
         (extractEdges m).
Proof.
  intro Hnd. apply Forall_forall. intros e He.
  destruct (extractEdges_indices m e He) as (i & j & Hij & Hv0 & Hv1 & _).
  exists (N.min i j), (N.max i j). repeat split; try assumption.
  pose proof (nondegenerate_slot m i j Hnd Hij). lia.
Qed.

(** The six edges of the tetrahedron. *)
Lemma extractEdges_ordered_tetrahedron :
  Forall (fun e => exists a b, v0 e = Some a /\ v1 e = Some b /\ (a < b)%N)
         (extractEdges tetrahedron).
Proof.
  apply (extractEdges_ordered tetrahedron). vm_compute. reflexivity.
Defined.

(** ** Edge selection: the claims *)

(** C1, as the code has it.  Angle selection keeps exactly the edges with
    [dihedralAngle <= 180 - minAngle], so for [minAngle1 < minAngle2] every
    edge selected with [minAngle2] is selected with [minAngle1]: raising the
    sharpness threshold selects no more edges. *)
Theorem angle_selection_antitone (edges : list MeshEdge)
    (s1 s2 : AngleEdgeSelection) :
  (minAngle s1 < minAngle s2)%R ->
  incl (selectEdges edges (SelAngle s2)) (selectEdges edges (SelAngle s1)) /\
  (forall e s, In e (selectEdges edges (SelAngle s))
               <-> In e edges /\ (dihedralAngle e <= 180 - minAngle s)%R).
Proof.
  intro H. split.
  - intros e He. cbn [selectEdges] in *. rewrite selectByAngle_In in *.
    destruct He as [Hin Hle]. split; [assumption | lra].
  - intros e s. apply selectByAngle_In.
Qed.

Lemma angle_selection_antitone_right_angle :
  incl (selectEdges [edgeWithAngle 90] (SelAngle (mkAngleSel 100)))
       (selectEdges [edgeWithAngle 90] (SelAngle (mkAngleSel 80))) /\
  (forall e s, In e (selectEdges [edgeWithAngle 90] (SelAngle s))
               <-> In e [edgeWithAngle 90] /\ (dihedralAngle e <= 180 - minAngle s)%R).
Proof.
  apply (angle_selection_antitone [edgeWithAngle 90] (mkAngleSel 80) (mkAngleSel 100)).
  simpl. lra.
Defined.

(** C1 fails as stated: a right-angle edge is selected with [minAngle = 80]
    and not with [minAngle = 100], so the selection for the smaller angle is
    not included in the selection for the larger one. *)
Lemma angle_selection_not_monotone :
  (80 < 100)%R /\
  In (edgeWithAngle 90) (selectEdges [edgeWithAngle 90] (SelAngle (mkAngleSel 80))) /\
  ~ In (edgeWithAngle 90) (selectEdges [edgeWithAngle 90] (SelAngle (mkAngleSel 100))) /\
  ~ incl (selectEdges [edgeWithAngle 90] (SelAngle (mkAngleSel 80)))
         (selectEdges [edgeWithAngle 90] (SelAngle (mkAngleSel 100))).
Proof.
  assert (Hin : In (edgeWithAngle 90)
                   (selectEdges [edgeWithAngle 90] (SelAngle (mkAngleSel 80))))
    by (cbn [selectEdges]; rewrite selectByAngle_In; simpl; split; [now left | lra]).
  assert (Hout : ~ In (edgeWithAngle 90)
                      (selectEdges [edgeWithAngle 90] (SelAngle (mkAngleSel 100))))
    by (cbn [selectEdges]; rewrite selectByAngle_In; simpl; intros [_ H]; lra).
  repeat split; try assumption; [lra|].
  intro Hincl. apply Hout, Hincl, Hin.
Qed.

(** C2.  A point selection returns at most one edge; it returns none exactly
    when no edge lies within [maxDistance] of the point (unbounded when left
    out), in particular for an empty edge list; and an edge it returns is one
    of the edges, lies within [maxDistance], and is at least as close to the
    point as every edge of the list. *)
Theorem point_selection_closest (edges : list MeshEdge) (s : PointEdgeSelection) :
  (List.length (selectEdges edges (SelPoint s)) <= 1)%nat /\
  (selectEdges edges (SelPoint s) = []
   <-> forall e, In e edges -> ~ Num.LeExt (edgeDistance (point s) e) (reach s)) /\
  (forall c, In c (selectEdges edges (SelPoint s)) ->
             In c edges /\
             Num.LeExt (edgeDistance (point s) c) (reach s) /\
             forall e, In e edges ->
                       (edgeDistance (point s) c <= edgeDistance (point s) e)%R).
Proof.
  cbn [selectEdges]. pose proof (selectByPoint_spec edges s) as H.
  cbv zeta in H. fold (reach s) in H.
  destruct (selectByPoint edges s) as [|c [|c' rest]]; try contradiction.
  - split; [simpl; lia|]. split; [split|].
    + intros _ e He. apply le_ext_false_iff. now apply H.
    + reflexivity.
    + intros c [].
  - destruct H as (Hin & Hmax & Hmin).
    split; [simpl; lia|]. split; [split|].
    + discriminate.
    + intro Hnone. exfalso. apply (Hnone c Hin). now apply le_ext_iff.
    + intros c0 [<-|[]]. repeat split; try assumption. now apply le_ext_iff.
Qed.

(** ** The pipeline: the claims *)

Section PipelineClaims.

Context {Manifold : Type} {K : ManifoldKernel Manifold}.

(** C5.  Whatever the solid and the options, the log of the orchestrator
    ends with the subtractions [result.subtract(tool)] of a list of tools
    from the working solid, and the value is the solid so obtained; each of
    these tools was built by [createFilletCuttingTool] from a selected edge
    whose dihedral angle is strictly between 5 and 175 degrees, and has a
    volume strictly above 1e-9 (so no tool of volume below 1e-9 is
    subtracted); every other subtraction of the log is the wedge-minus-tube
    step inside the construction of a tool. *)
Theorem fillet_subtracts_only_qualifying_tools (mf : Manifold)
    (options : FilletOptions) :
  exists prefix tools,
    fst (filletWithManifold mf options) = prefix ++ subtractLog mf tools /\
    snd (filletWithManifold mf options)
    = (if Num.leb (radius options) 0
       then Thrown "Fillet radius must be positive"
       else Returned (fold_left subtract tools mf)) /\
    Forall (qualifies (radius options) (segmentsOrDefault options)
                      (selectEdges (extractEdges (getMesh mf)) (selection options)))
           tools /\
    Forall (fun tool => ~ (volume tool < 1e-9)%R) tools /\
    Forall insideToolConstruction prefix.
Proof.
  destruct (Num.leb (radius options) 0) eqn:Hr.
  - apply leb_le in Hr. rewrite (fillet_rejects mf options Hr).
    exists [], []. repeat split; constructor.
  - apply leb_gt in Hr.
    destruct (fillet_run mf options Hr) as (prefix & tools & E & Hq & Hp).
    exists prefix, tools. rewrite E. repeat split; try assumption.
    eapply Forall_impl; [|exact Hq].
    intros tool (edge & _ & _ & _ & Hvol). lra.
Qed.

(** C6.  With [radius <= 0] the orchestrator throws the invalid-parameter
    error at once: the log is empty, so the mesh has not been read and the
    kernel has not been called. *)
Theorem fillet_rejects_radius (mf : Manifold) (options : FilletOptions) :
  (radius options <= 0)%R ->
  filletWithManifold mf options = ([], Thrown "Fillet radius must be positive").
Proof. apply fillet_rejects. Qed.

(** C7.  With [radius > 0], when no edge is extracted or none is selected,
    the orchestrator returns the input solid itself, without an error; its
    log holds the reading of the mesh and one warning, and no kernel
    operation. *)
Theorem fillet_returns_input (mf : Manifold) (options : FilletOptions) :
  (0 < radius options)%R ->
  extractEdges (getMesh mf) = [] \/
  selectEdges (extractEdges (getMesh mf)) (selection options) = [] ->
  exists msg,
    filletWithManifold mf options = ([EGetMesh mf; EWarn msg], Returned mf).
Proof. apply fillet_nothing_to_do. Qed.

(** C8.  [pipeAlongPath] and [pipeAlongPathExtended] throw exactly when the
    path has fewer than 2 points, and then before any kernel call.  With 2
    points or more, [pipeAlongPath] returns the hulls of the spheres at every
    two neighbouring points of the path, joined (the hull itself when there
    is one segment, the kernel's union otherwise), and
    [pipeAlongPathExtended] returns the same for the extended path. *)
Theorem pipe_fails_iff_short_path (path : list Vec3) (r : R)
    (f : option R) (seg : option N) :
  ((exists msg, snd (pipeAlongPath path r seg) = Thrown msg)
   <-> (List.length path < 2)%nat) /\
  ((exists msg, snd (pipeAlongPathExtended path r f seg) = Thrown msg)
   <-> (List.length path < 2)%nat) /\
  ((List.length path < 2)%nat ->
   pipeAlongPath path r seg = ([], Thrown "Path must have at least 2 points") /\
   pipeAlongPathExtended path r f seg
   = ([], Thrown "Path must have at least 2 points")) /\
  ((2 <= List.length path)%nat ->
   snd (pipeAlongPath path r seg)
   = Returned (joined (hullsOfNeighbours (spheresAt r seg path))) /\
   snd (pipeAlongPathExtended path r f seg)
   = Returned (joined (hullsOfNeighbours
                         (spheresAt r seg
                            (extendPath path r
                               (match f with Some f => f | None => 0.1%R end)))))).
Proof.
  destruct (Nat.lt_ge_cases (List.length path) 2) as [Hlt|Hge].
  - pose proof (pipeAlongPath_short path r seg Hlt) as E1.
    pose proof (pipeAlongPathExtended_short path r f seg Hlt) as E2.
    repeat split; try assumption; try lia.
    + rewrite E1. eexists. reflexivity.
    + rewrite E2. eexists. reflexivity.
  - pose proof (pipeAlongPath_value path r seg Hge) as E1.
    pose proof (pipeAlongPathExtended_value path r f seg Hge) as E2.
    repeat split; try assumption; try lia.
    + intros [msg H]. rewrite E1 in H. discriminate.
    + intros [msg H]. rewrite E2 in H. discriminate.
Qed.

End PipelineClaims.

(** *** The claims on the symbolic kernel *)

Lemma fillet_rejects_radius_zero :
  filletWithManifold (OfMesh tetrahedron)
                     (mkOptions 0 (SelAngle (mkAngleSel 80)) None)
  = ([], Thrown "Fillet radius must be positive").
Proof.
  apply (fillet_rejects_radius (OfMesh tetrahedron)
           (mkOptions 0 (SelAngle (mkAngleSel 80)) None)).
  simpl. lra.
Defined.

Lemma fillet_returns_input_empty_mesh :
  exists msg,
    filletWithManifold (OfMesh emptyMesh)
                       (mkOptions 2 (SelAngle (mkAngleSel 80)) (Some 50%N))
    = ([EGetMesh (OfMesh emptyMesh); EWarn msg], Returned (OfMesh emptyMesh)).
Proof.
  apply (fillet_returns_input (OfMesh emptyMesh)
           (mkOptions 2 (SelAngle (mkAngleSel 80)) (Some 50%N))).
  - simpl. lra.
  - left. reflexivity.
Defined.

(** ** Worked examples *)

Ltac unit_sqrt :=
  match goal with
  | |- context [sqrt ?x] => replace x with 1%R by lra; rewrite sqrt_1
  end.

(** *** Extraction *)

Example tetrahedron_edges :
  edgeIndices tetrahedron
  = [(Some 0, Some 1); (Some 1, Some 2); (Some 0, Some 2);
     (Some 0, Some 3); (Some 1, Some 3); (Some 2, Some 3)]%N /\
  nondegenerate tetrahedron = true /\
  closedMesh tetrahedron = true.
Proof. repeat split; vm_compute; reflexivity. Qed.

(** The pair {1, 2} of [corner] lies on the boundary (one triangle): no
    edge is extracted for it. *)
Example corner_boundary_pair :
  nondegenerate corner = true /\
  triCount corner 1 2 = 1%nat /\
  ~ hasEdge corner 1 2.
Proof.
  split; [vm_compute; reflexivity|]. split; [vm_compute; reflexivity|].
  intro H. apply hasEdge_slotCount in H. vm_compute in H. discriminate.
Qed.

(** The pair {0, 1} of [fan] is an edge of three triangles: no edge is
    extracted for it, and none for the boundary pairs either. *)
Example fan_non_manifold_pair :
  nondegenerate fan = true /\
  triCount fan 0 1 = 3%nat /\
  ~ hasEdge fan 0 1 /\
  extractEdges fan = [].
Proof.
  split; [vm_compute; reflexivity|]. split; [vm_compute; reflexivity|].
  split.
  - intro H. apply hasEdge_slotCount in H. vm_compute in H. discriminate.
  - vm_compute. reflexivity.
Qed.

(** Two normals of length 2: their dot product, 4, is outside the domain of
    [Math.acos]; the clamped product is 1 and the angle is 0. *)
Example overlong_normals :
  Num.mathAcos (dot3 (2, 0, 0)%R (2, 0, 0)%R) = None /\
  dihedralNumber (2, 0, 0)%R (2, 0, 0)%R = Some 0%R.
Proof.
  split.
  - apply mathAcos_nan. unfold dot3. cbn [vx vy vz fst snd]. lra.
  - rewrite dihedralNumber_dihedral. f_equal.
    unfold dihedral, clampedDot, dot3, Num.max, Num.min. cbn [vx vy vz fst snd].
    replace (2 * 2 + 0 * 0 + 0 * 0)%R with 4%R by ring.
    rewrite Rmin_left by lra. rewrite Rmax_right by lra.
    rewrite acos_1. ring.
Qed.

Lemma corner_normal_0 : triNormal corner 0 = (0, 0, 1)%R.
Proof.
  unfold triNormal.
  change (getVertex corner (Some (triIndex corner 0 0))) with (0, 0, 0)%R.
  change (getVertex corner (Some (triIndex corner 0 1))) with (1, 0, 0)%R.
  change (getVertex corner (Some (triIndex corner 0 2))) with (0, 1, 0)%R.
  unfold computeNormal. cbn [vx vy vz fst snd].
  unit_sqrt.
  rewrite (proj2 (gtb_gt 1 1e-12)) by lra.
  repeat f_equal; lra.
Qed.

Lemma corner_normal_1 : triNormal corner 1 = (0, 1, 0)%R.
Proof.
  unfold triNormal.
  change (getVertex corner (Some (triIndex corner 1 0))) with (0, 0, 0)%R.
  change (getVertex corner (Some (triIndex corner 1 1))) with (0, 0, 1)%R.
  change (getVertex corner (Some (triIndex corner 1 2))) with (1, 0, 0)%R.
  unfold computeNormal. cbn [vx vy vz fst snd].
  unit_sqrt.
  rewrite (proj2 (gtb_gt 1 1e-12)) by lra.
  repeat f_equal; lra.
Qed.

Lemma dihedral_right_angle : dihedral (0, 0, 1)%R (0, 1, 0)%R = 90%R.
Proof.
  unfold dihedral, clampedDot, dot3, Num.max, Num.min.
  cbn [vx vy vz fst snd].
  replace (0 * 0 + 0 * 1 + 1 * 0)%R with 0%R by lra.
  rewrite Rmin_right, Rmax_right by lra.
  rewrite acos_0. pose proof PI_RGT_0. field. lra.
Qed.

(** The corner has five index pairs; only the shared one becomes an edge,
    with a dihedral angle of 90 degrees. *)
Example corner_edges : extractEdges corner = [cornerEdge].
Proof.
  unfold extractEdges.
  replace (buildEdgeToTris corner)
    with [("0_1", [mkAdjacent 0 (triNormal corner 0); mkAdjacent 1 (triNormal corner 1)]);
          ("1_2", [mkAdjacent 0 (triNormal corner 0)]);
          ("0_2", [mkAdjacent 0 (triNormal corner 0)]);
          ("0_3", [mkAdjacent 1 (triNormal corner 1)]);
          ("1_3", [mkAdjacent 1 (triNormal corner 1)])]
    by (cbv -[triNormal]; reflexivity).
  cbn [collectEdges edgeOfEntry normal].
  rewrite corner_normal_0, corner_normal_1, dihedral_right_angle.
  reflexivity.
Qed.

(** *** Point selection *)

Lemma cornerEdge_distance : edgeDistance (0, 1, 0)%R cornerEdge = 1%R.
Proof.
  unfold edgeDistance, pointToSegmentDistance, cornerEdge.
  cbn [p0 p1 vx vy vz fst snd].
  replace ((1 - 0) * (1 - 0) + (0 - 0) * (0 - 0) + (0 - 0) * (0 - 0))%R with 1%R by lra.
  rewrite (proj2 (ltb_ge 1 1e-12)) by lra.
  replace (((0 - 0) * (1 - 0) + (1 - 0) * (0 - 0) + (0 - 0) * (0 - 0)) / 1)%R
    with 0%R by lra.
  unfold Num.max, Num.min. rewrite Rmin_right, Rmax_left by lra.
  unit_sqrt. reflexivity.
Qed.

Lemma farEdge_distance : edgeDistance (0, 1, 0)%R farEdge = 4%R.
Proof.
  unfold edgeDistance, pointToSegmentDistance, farEdge.
  cbn [p0 p1 vx vy vz fst snd].
  replace ((1 - 0) * (1 - 0) + (5 - 5) * (5 - 5) + (0 - 0) * (0 - 0))%R with 1%R by lra.
  rewrite (proj2 (ltb_ge 1 1e-12)) by lra.
  replace (((0 - 0) * (1 - 0) + (1 - 5) * (5 - 5) + (0 - 0) * (0 - 0)) / 1)%R
    with 0%R by lra.
  unfold Num.max, Num.min. rewrite Rmin_right, Rmax_left by lra.
  match goal with
  | |- context [sqrt ?x] => replace x with (4 * 4)%R by lra
  end.
  apply sqrt_square. lra.
Qed.

(** The nearer edge wins although it comes second; with a reach of 0.5
    nothing is selected. *)
Example point_selection_example :
  selectEdges [farEdge; cornerEdge] (SelPoint (mkPointSel (0, 1, 0)%R None))
  = [cornerEdge] /\
  selectEdges [farEdge; cornerEdge] (SelPoint (mkPointSel (0, 1, 0)%R (Some 0.5%R)))
  = [].
Proof.
  cbn [selectEdges]. unfold selectByPoint.
  cbn [maxDistance point fold_left]. unfold closerEdge.
  cbn [fst snd Num.lt_ext Num.le_ext andb].
  rewrite farEdge_distance. cbn [fst snd Num.lt_ext Num.le_ext andb].
  rewrite cornerEdge_distance.
  rewrite (proj2 (ltb_lt 1 4)), (proj2 (leb_gt 4 0.5)), (proj2 (leb_gt 1 0.5)) by lra.
  cbn [fst snd Num.lt_ext Num.le_ext andb]. split; reflexivity.
Qed.

(** *** Tubes *)

(** Two points give one hull and no union; three give the union of two
    hulls; one point is refused. *)
Example pipe_example :
  pipeAlongPath [(0, 0, 0)%R; (10, 0, 0)%R] 1 None
  = ([ESphere 1 None; ETranslate (SphereOf 1 None) (0, 0, 0)%R;
      ESphere 1 None; ETranslate (SphereOf 1 None) (10, 0, 0)%R;
      EHull [Moved (SphereOf 1 None) (0, 0, 0)%R; Moved (SphereOf 1 None) (10, 0, 0)%R]],
     Returned (HullOf [Moved (SphereOf 1 None) (0, 0, 0)%R;
                       Moved (SphereOf 1 None) (10, 0, 0)%R])) /\
  snd (pipeAlongPath [(0, 0, 0)%R; (10, 0, 0)%R; (10, 10, 0)%R] 1 None)
  = Returned (UnionOf
      [HullOf [Moved (SphereOf 1 None) (0, 0, 0)%R; Moved (SphereOf 1 None) (10, 0, 0)%R];
       HullOf [Moved (SphereOf 1 None) (10, 0, 0)%R; Moved (SphereOf 1 None) (10, 10, 0)%R]]) /\
  pipeAlongPath [(0, 0, 0)%R] 1 None
  = ([], Thrown "Path must have at least 2 points").
Proof. repeat split; reflexivity. Qed.

(** *** The orchestrator *)

Section ToolFacts.

Context {Manifold : Type} {K : ManifoldKernel Manifold}.

(** [createFilletCuttingTool] returns [null] exactly for an edge shorter
    than 1e-9, and the wedge minus the tube otherwise. *)
Lemma createFilletCuttingTool_null (edge : MeshEdge) (r : R) (seg : option N) :
  (edgeLength edge < 1e-9)%R ->
  createFilletCuttingTool edge r seg = ([], Returned None).
Proof.
  unfold createFilletCuttingTool, edgeLength.
  destruct (p0 edge) as [[x0 y0] z0], (p1 edge) as [[x1 y1] z1].
  cbn [vx vy vz fst snd]. intro H.
  now rewrite (proj2 (ltb_lt _ _) H).
Qed.

Lemma createFilletCuttingTool_builds (edge : MeshEdge) (r : R) (seg : option N) :
  (1e-9 <= edgeLength edge)%R ->
  exists log wedge tube,
    createFilletCuttingTool edge r seg
    = (log, Returned (Some (subtract (hullPoints wedge) (hull tube)))).
Proof.
  unfold createFilletCuttingTool, edgeLength.
  destruct (p0 edge) as [[x0 y0] z0], (p1 edge) as [[x1 y1] z1].
  cbn [vx vy vz fst snd]. intro H.
  rewrite (proj2 (ltb_ge _ _) H).
  destruct (n0 edge) as [[n0x n0y] n0z], (n1 edge) as [[n1x n1y] n1z].
  eexists. eexists. eexists. reflexivity.
Qed.

Lemma addCuttingTool_adds (r : R) (seg : option N) (cuttingTools : list Manifold)
    (edge : MeshEdge) :
  (5 < dihedralAngle edge < 175)%R ->
  (1e-9 <= edgeLength edge)%R ->
  (forall tool, volume tool > 1e-9)%R ->
  exists log wedge tube,
    addCuttingTool r seg cuttingTools edge
    = (log, Returned (cuttingTools ++ [subtract (hullPoints wedge) (hull tube)])).
Proof.
  intros [Hlo Hhi] Hlen Hvol. unfold addCuttingTool.
  rewrite (proj2 (gtb_gt _ _)), (proj2 (ltb_lt _ _)) by lra. cbn [andb].
  destruct (createFilletCuttingTool_builds edge r seg Hlen)
    as (log & wedge & tube & E).
  rewrite E, bind_returned. cbn [fst snd].
  change (volumeM (subtract (hullPoints wedge) (hull tube)))
    with ([EVolume (subtract (hullPoints wedge) (hull tube))],
          Returned (volume (subtract (hullPoints wedge) (hull tube)))).
  rewrite bind_returned. cbn [fst snd].
  rewrite (proj2 (gtb_gt _ _)) by apply Hvol.
  eexists. exists wedge, tube. reflexivity.
Qed.

End ToolFacts.

Lemma cornerEdge_length : edgeLength cornerEdge = 1%R.
Proof.
  unfold edgeLength, cornerEdge. cbn [p0 p1 vx vy vz fst snd].
  unit_sqrt. reflexivity.
Qed.

(** Filleting the corner with radius 2 and [minAngle = 80] subtracts one
    tool, a wedge minus a tube, from the input solid. *)
Example corner_fillet :
  exists log wedge tube,
    filletWithManifold (OfMesh corner)
                       (mkOptions 2 (SelAngle (mkAngleSel 80)) (Some 50%N))
    = (log, Returned (Minus (OfMesh corner) (Minus (HullOfPoints wedge) (HullOf tube)))).
Proof.
  unfold filletWithManifold. cbn [radius selection].
  rewrite (proj2 (leb_gt 2 0)) by lra.
  change (extractEdgesM (OfMesh corner))
    with ([EGetMesh (OfMesh corner)], Returned (extractEdges corner)).
  rewrite corner_edges, bind_returned.
  cbn [fst snd List.length Nat.eqb selectEdges].
  unfold selectByAngle. cbn [filter minAngle].
  replace (Num.leb (dihedralAngle cornerEdge) (180 - 80)) with true
    by (symmetry; apply leb_le; simpl; lra).
  cbn [List.length Nat.eqb forEach].
  destruct (addCuttingTool_adds (K := SymbolicKernel) 2
              (segmentsOrDefault (mkOptions 2 (SelAngle (mkAngleSel 80)) (Some 50%N)))
              [] cornerEdge)
    as (log & wedge & tube & E).
  { simpl. lra. }
  { rewrite cornerEdge_length. lra. }
  { intro tool. simpl. lra. }
  eexists. exists wedge, tube.
  change (emit (ELog "fillet: Found edges to fillet" 1))
    with ([ELog (Manifold := Solid) "fillet: Found edges to fillet" 1], Returned tt).
  rewrite bind_returned, E.
  rewrite !bind_returned. cbn [fst snd app List.length Nat.ltb Nat.leb].
  reflexivity.
Qed.

(** With [minAngle = 100] the right-angle edge is not selected and the
    corner comes back as it is. *)
Example corner_fillet_unselected :
  exists msg,
    filletWithManifold (OfMesh corner)
                       (mkOptions 2 (SelAngle (mkAngleSel 100)) None)
    = ([EGetMesh (OfMesh corner); EWarn msg], Returned (OfMesh corner)).
Proof.
  apply fillet_nothing_to_do; [simpl; lra|]. right.
  change (getMesh (OfMesh corner)) with corner. rewrite corner_edges.
  cbn [selection selectEdges]. unfold selectByAngle. cbn [filter minAngle].
  replace (Num.leb (dihedralAngle cornerEdge) (180 - 100)) with false
    by (symmetry; apply leb_gt; simpl; lra).
  reflexivity.
Qed.

(** * Further properties of the code *)

(** ** Keys *)

(** X1.  The key of an index pair decodes to the smaller and the larger
    index, in that order, and two pairs have the same key exactly when they
    are the same unordered pair. *)
Theorem key_round_trip (a b c d : N) :
  Key.parseInt (nth_error (Key.split (Key.make a b)) 0) = Some (N.min a b) /\
  Key.parseInt (nth_error (Key.split (Key.make a b)) 1) = Some (N.max a b) /\
  nth_error (Key.split (Key.make a b)) 2 = None /\
  (Key.make a b = Key.make c d <-> N.min a b = N.min c d /\ N.max a b = N.max c d).
Proof.
  rewrite make_template, split_template. cbn [nth_error].
  rewrite !parseInt_toString.
  split; [reflexivity|]. split; [reflexivity|]. split; [reflexivity|].
  rewrite <- make_template, (make_eq_iff c d a b), samePair_min_max.
  reflexivity.
Qed.

(** ** Extraction *)

Lemma collectEdges_indices_fresh (m : Mesh) (entries : EdgeMap.t) (i j : N) :
  (forall k v, In (k, v) entries -> exists a b, k = Key.make a b) ->
  ~ In (Key.make i j) (map fst entries) ->
  ~ In (Some (N.min i j), Some (N.max i j))
       (map (fun e => (v0 e, v1 e)) (collectEdges m entries)).
Proof.
  intros Hkeys Hfresh Hin. apply in_map_iff in Hin.
  destruct Hin as (e & Hidx & He). apply collectEdges_In in He.
  destruct He as ([k v] & Hkv & Hedge).
  destruct (Hkeys k v Hkv) as (a & b & ->).
  pose proof (edgeOfEntry_two _ _ _ _ Hedge) as Hlen.
  destruct v as [|t0 [|t1 [|t2 v]]]; try discriminate.
  destruct (edgeOfEntry_make m a b t0 t1) as (e' & He' & Hv0 & Hv1 & _).
  assert (e' = e) by congruence. subst e'.
  rewrite Hv0, Hv1 in Hidx. injection Hidx as Hmin Hmax.
  apply Hfresh. apply (in_map fst) in Hkv. simpl in Hkv.
  rewrite !make_template in *. now rewrite <- Hmin, <- Hmax.
Qed.

Lemma collectEdges_indices_NoDup (m : Mesh) (entries : EdgeMap.t) :
  (forall k v, In (k, v) entries -> exists a b, k = Key.make a b) ->
  NoDup (map fst entries) ->
  NoDup (map (fun e => (v0 e, v1 e)) (collectEdges m entries)).
Proof.
  induction entries as [|[k v] rest IH]; intros Hkeys Hnd; simpl; [constructor|].
  inversion Hnd as [|? ? Hnotin Hnd']; subst.
  assert (Hrest : forall k' v', In (k', v') rest -> exists a b, k' = Key.make a b)
    by (intros k' v' H; apply (Hkeys k' v'); now right).
  specialize (IH Hrest Hnd').
  destruct v as [|t0 [|t1 [|t2 v]]]; try exact IH.
  destruct (Hkeys k [t0; t1] (or_introl eq_refl)) as (a & b & ->).
  simpl. constructor; [|exact IH].
  rewrite make_template, split_template. cbn [nth_error].
  rewrite !parseInt_toString.
  now apply collectEdges_indices_fresh.
Qed.

(** X2.  No two extracted edges carry the same index pair: every manifold
    edge of the mesh is reported once. *)
Theorem extractEdges_no_duplicates (m : Mesh) : NoDup (edgeIndices m).
Proof.
  unfold edgeIndices, extractEdges.
  apply collectEdges_indices_NoDup.
  - intros k v H. destruct (buildEdgeToTris_entry m k v H) as (i & j & _ & -> & _).
    now exists i, j.
  - apply (buildEdgeToTris_invariant m).
Qed.

Lemma collectEdges_total (m : Mesh) (entries : EdgeMap.t) :
  (2 * List.length (collectEdges m entries) <= totalEntries entries)%nat.
Proof.
  unfold totalEntries.
  induction entries as [|[k v] rest IH]; simpl; [lia|].
  destruct v as [|t0 [|t1 [|t2 v]]]; simpl in *; lia.
Qed.

(** X3.  Whatever the mesh (open, non-manifold or degenerate), the number
    of extracted edges is at most [3 * numTris / 2]: every edge uses up two
    of the three edge slots of each triangle. *)
Theorem extractEdges_at_most (m : Mesh) :
  (2 * List.length (extractEdges m) <= 3 * numTris m)%nat /\
  (List.length (extractEdges m) <= 3 * numTris m / 2)%nat.
Proof.
  assert (H : (2 * List.length (extractEdges m) <= 3 * numTris m)%nat).
  { unfold extractEdges.
    pose proof (collectEdges_total m (buildEdgeToTris m)) as H.
    destruct (buildEdgeToTris_invariant m) as (_ & _ & Htot).
    rewrite Htot, allEntries_length in H. exact H. }
  split; [exact H|].
  apply Nat.div_le_lower_bound; [discriminate | lia].
Qed.

(** *** The two triangles of an edge *)

Lemma StronglySorted_app {A : Type} (R : A -> A -> Prop) (l1 l2 : list A) :
  StronglySorted R l1 -> StronglySorted R l2 ->
  (forall x y, In x l1 -> In y l2 -> R x y) ->
  StronglySorted R (l1 ++ l2).
Proof.
  induction 1 as [|x l1 Hs IH Hx]; intros H2 Hcross; simpl; [assumption|].
  constructor.
  - apply IH; [assumption|]. intros a b Ha Hb. apply Hcross; [now right | assumption].
  - apply Forall_app. split; [assumption|].
    apply Forall_forall. intros y Hy. apply Hcross; [now left | assumption].
Qed.

Section SortedFlatMap.

Context {A : Type} (f : A -> nat) (g : nat -> list A).
Hypothesis Hg : forall t x, In x (g t) -> f x = t.

Lemma flat_map_seq_bounds (s n : nat) (x : A) :
  In x (flat_map g (seq s n)) -> (s <= f x < s + n)%nat.
Proof.
  intro H. apply in_flat_map in H. destruct H as (t & Ht & Hx).
  apply in_seq in Ht. rewrite (Hg t x Hx). lia.
Qed.

Lemma same_measure_sorted (t : nat) (l : list A) :
  (forall x, In x l -> f x = t) ->
  StronglySorted (fun x y => (f x <= f y)%nat) l.
Proof.
  induction l as [|x l IH]; intro H; constructor.
  - apply IH. intros y Hy. apply H. now right.
  - apply Forall_forall. intros y Hy.
    rewrite (H x (or_introl eq_refl)), (H y (or_intror Hy)). lia.
Qed.

Lemma flat_map_seq_sorted (n : nat) :
  forall s, StronglySorted (fun x y => (f x <= f y)%nat) (flat_map g (seq s n)).
Proof.
  induction n as [|n IH]; intro s; simpl; [constructor|].
  apply StronglySorted_app.
  - apply (same_measure_sorted s). apply Hg.
  - apply IH.
  - intros x y Hx Hy. rewrite (Hg s x Hx).
    apply flat_map_seq_bounds in Hy. lia.
Qed.

Lemma flat_map_seq_strict (n : nat) :
  forall s,
    (forall t, (s <= t < s + n)%nat -> (List.length (g t) <= 1)%nat) ->
    StronglySorted (fun x y => (f x < f y)%nat) (flat_map g (seq s n)).
Proof.
  induction n as [|n IH]; intros s Hone; simpl; [constructor|].
  apply StronglySorted_app.
  - assert (H : (List.length (g s) <= 1)%nat) by (apply Hone; lia).
    destruct (g s) as [|x [|y l]]; simpl in H; try lia; repeat constructor.
  - apply IH. intros t Ht. apply Hone. lia.
  - intros x y Hx Hy. rewrite (Hg s x Hx).
    apply flat_map_seq_bounds in Hy. lia.
Qed.

End SortedFlatMap.

Lemma entriesOfTriangle_In (m : Mesh) (a b : N) (t : nat) (kx : string * Adjacent) :
  In kx (entriesOfTriangle m (Key.make a b) t) ->
  snd kx = mkAdjacent t (triNormal m t) /\ triHasPair m a b t = true.
Proof.
  unfold entriesOfTriangle, slotEntries. intro H.
  apply filter_In in H. destruct H as [Hin Hkey].
  apply in_map_iff in Hin. destruct Hin as ([i j] & <- & Hij).
  simpl in *. split; [reflexivity|].
  rewrite make_eqb in Hkey. unfold triHasPair.
  apply existsb_exists. now exists (i, j).
Qed.

Lemma entriesOfTriangle_one (m : Mesh) (a b : N) (t : nat) :
  distinctCorners m t = true ->
  (List.length (entriesOfTriangle m (Key.make a b) t) <= 1)%nat.
Proof.
  intro H. unfold entriesOfTriangle, slotEntries.
  rewrite (length_filter_map _ (samePair a b)) by (intros [i j]; apply make_eqb).
  rewrite (slots_of_triangle m a b t H). destruct (triHasPair m a b t); lia.
Qed.

Lemma entriesFor_triangles (m : Mesh) (key : string) :
  entriesFor key (allEntries m)
  = map snd (flat_map (entriesOfTriangle m key) (seq 0 (numTris m))).
Proof. unfold entriesFor, allEntries. now rewrite filter_flat_map. Qed.

Lemma edgeOfEntry_fields (m : Mesh) (entry : string * list Adjacent) (e : MeshEdge) :
  edgeOfEntry m entry = Some e ->
  p0 e = getVertex m (v0 e) /\ p1 e = getVertex m (v1 e) /\
  dihedralAngle e = dihedral (n0 e) (n1 e).
Proof.
  destruct entry as [k v]. simpl.
  destruct v as [|t0 [|t1 [|t2 v]]]; try discriminate.
  intros [= <-]. simpl. auto.
Qed.

Lemma pair_of_triangles (m : Mesh) (a b : N) (x0 x1 : Adjacent) :
  entriesFor (Key.make a b) (allEntries m) = [x0; x1] ->
  exists t0 t1,
    (t0 <= t1 < numTris m)%nat /\
    triHasPair m a b t0 = true /\ triHasPair m a b t1 = true /\
    normal x0 = triNormal m t0 /\ normal x1 = triNormal m t1 /\
    (nondegenerate m = true -> (t0 < t1)%nat).
Proof.
  rewrite entriesFor_triangles.
  set (g := entriesOfTriangle m (Key.make a b)).
  set (f := fun kx : string * Adjacent => tri (snd kx)).
  assert (Hg : forall t kx, In kx (g t) -> f kx = t).
  { intros t kx H. destruct (entriesOfTriangle_In m a b t kx H) as [E _].
    unfold f. now rewrite E. }
  intro E.
  destruct (flat_map g (seq 0 (numTris m))) as [|kx0 [|kx1 [|kx2 l]]] eqn:EL;
    try discriminate.
  simpl in E. injection E as E0 E1.
  assert (H0 : In kx0 (flat_map g (seq 0 (numTris m)))) by (rewrite EL; now left).
  assert (H1 : In kx1 (flat_map g (seq 0 (numTris m))))
    by (rewrite EL; right; now left).
  pose proof (flat_map_seq_bounds f g Hg 0 (numTris m) kx1 H1) as Hb1.
  pose proof (flat_map_seq_sorted f g Hg (numTris m) 0) as Hs.
  rewrite EL in Hs. apply StronglySorted_inv in Hs. destruct Hs as [_ Hall].
  apply Forall_inv in Hall.
  apply in_flat_map in H0, H1.
  destruct H0 as (t0 & _ & H0), H1 as (t1 & _ & H1).
  pose proof (Hg t0 kx0 H0) as F0. pose proof (Hg t1 kx1 H1) as F1.
  destruct (entriesOfTriangle_In m a b t0 kx0 H0) as [S0 P0].
  destruct (entriesOfTriangle_In m a b t1 kx1 H1) as [S1 P1].
  exists t0, t1. split; [rewrite <- F0, <- F1; lia|].
  split; [assumption|]. split; [assumption|].
  split; [now rewrite <- E0, S0|]. split; [now rewrite <- E1, S1|].
  intro Hnd.
  assert (Hone : forall t, (0 <= t < 0 + numTris m)%nat ->
                           (List.length (g t) <= 1)%nat).
  { intros t Ht. apply entriesOfTriangle_one. unfold nondegenerate in Hnd.
    rewrite forallb_forall in Hnd. apply Hnd. apply in_seq. lia. }
  pose proof (flat_map_seq_strict f g Hg (numTris m) 0 Hone) as Hs'.
  rewrite EL in Hs'. apply StronglySorted_inv in Hs'. destruct Hs' as [_ Hall'].
  apply Forall_inv in Hall'. rewrite <- F0, <- F1. exact Hall'.
Qed.

Lemma extractEdges_adjacent (m : Mesh) (e : MeshEdge) :
  In e (extractEdges m) ->
  p0 e = getVertex m (v0 e) /\ p1 e = getVertex m (v1 e) /\
  exists a b t0 t1,
    v0 e = Some (N.min a b) /\ v1 e = Some (N.max a b) /\
    (t0 <= t1 < numTris m)%nat /\
    triHasPair m a b t0 = true /\ triHasPair m a b t1 = true /\
    n0 e = triNormal m t0 /\ n1 e = triNormal m t1 /\
    (nondegenerate m = true -> (t0 < t1)%nat).
Proof.
  unfold extractEdges. intro Hin.
  apply collectEdges_In in Hin. destruct Hin as ([k v] & Hkv & He).
  destruct (edgeOfEntry_fields m _ e He) as (Hp0 & Hp1 & _).
  split; [assumption|]. split; [assumption|].
  pose proof (edgeOfEntry_two _ _ _ _ He) as Hlen.
  destruct (buildEdgeToTris_entry m k v Hkv) as (a & b & _ & -> & _).
  destruct v as [|x0 [|x1 [|x2 v]]]; try discriminate.
  apply buildEdgeToTris_lookup in Hkv; [|discriminate].
  destruct (pair_of_triangles m a b x0 x1 (eq_sym Hkv))
    as (t0 & t1 & Hb & P0 & P1 & N0 & N1 & Hlt).
  destruct (edgeOfEntry_make m a b x0 x1) as (e' & He' & Hv0 & Hv1 & Hn0 & Hn1 & _).
  assert (e' = e) by congruence. subst e'.
  exists a, b, t0, t1. repeat split; try assumption; try lia; congruence.
Qed.

(** X4.  Every extracted edge takes its end points from the vertex buffer
    at its two indices and its normals from two triangles that have the pair
    as an edge, [n0] from the one that comes first in the triangle list; in
    a mesh whose triangles have three distinct indices the two triangles are
    different. *)
Theorem extractEdges_adjacent_triangles (m : Mesh) :
  Forall (fun e =>
            p0 e = getVertex m (v0 e) /\ p1 e = getVertex m (v1 e) /\
            exists a b t0 t1,
              v0 e = Some (N.min a b) /\ v1 e = Some (N.max a b) /\
              (t0 <= t1 < numTris m)%nat /\
              triHasPair m a b t0 = true /\ triHasPair m a b t1 = true /\
              n0 e = triNormal m t0 /\ n1 e = triNormal m t1 /\
              (nondegenerate m = true -> (t0 < t1)%nat))
         (extractEdges m).
Proof. apply Forall_forall. intros e He. now apply extractEdges_adjacent. Qed.

(** ** Geometry of the helpers *)

Section Geometry.

Local Open Scope R_scope.

Lemma normSq_nonneg (v : Vec3) : 0 <= normSq v.
Proof. unfold normSq. nra. Qed.

Lemma clamp01_cases (x : R) :
  let t := Num.max 0 (Num.min 1 x) in
  (x <= 0 /\ t = 0) \/ (0 <= x <= 1 /\ t = x) \/ (1 <= x /\ t = 1).
Proof.
  unfold Num.max, Num.min, Rmax, Rmin.
  destruct (Rle_dec 1 x); destruct (Rle_dec 0 1); destruct (Rle_dec 0 x); lra.
Qed.

Lemma pointToSegmentDistance_along (p a b : Vec3) :
  1e-12 <= normSq (vsub b a) ->
  exists t, 0 <= t <= 1 /\
            pointToSegmentDistance p a b = dist3 p (along a b t) /\
            forall s, 0 <= s <= 1 -> dist3 p (along a b t) <= dist3 p (along a b s).
Proof.
  destruct p as [[px py] pz], a as [[ax ay] az], b as [[bx by_] bz].
  unfold pointToSegmentDistance, dist3, normSq, vsub, along.
  cbn [vx vy vz fst snd]. intro HL.
  rewrite (proj2 (ltb_ge _ _) HL).
  set (L := (bx - ax) * (bx - ax) + (by_ - ay) * (by_ - ay) + (bz - az) * (bz - az)) in *.
  set (q := (px - ax) * (bx - ax) + (py - ay) * (by_ - ay) + (pz - az) * (bz - az)).
  assert (HLpos : 0 < L) by lra.
  assert (Hq : q / L * L = q) by (field; lra).
  set (t := Num.max 0 (Num.min 1 (q / L))).
  pose proof (clamp01_cases (q / L)) as Hc. cbv zeta in Hc. fold t in Hc.
  exists t. split; [lra|]. split; [reflexivity|].
  intros s Hs. apply sqrt_le_1_alt.
  assert (Hdiff :
    ((px - (ax + s * (bx - ax))) * (px - (ax + s * (bx - ax))) +
     (py - (ay + s * (by_ - ay))) * (py - (ay + s * (by_ - ay))) +
     (pz - (az + s * (bz - az))) * (pz - (az + s * (bz - az))))
    - ((px - (ax + t * (bx - ax))) * (px - (ax + t * (bx - ax))) +
       (py - (ay + t * (by_ - ay))) * (py - (ay + t * (by_ - ay))) +
       (pz - (az + t * (bz - az))) * (pz - (az + t * (bz - az))))
    = (s - t) * ((s + t) * L - 2 * q)) by (unfold L, q; ring).
  assert (0 <= (s - t) * ((s + t) * L - 2 * q)); [|lra].
  rewrite <- Hq.
  replace ((s + t) * L - 2 * (q / L * L)) with (L * (s + t - 2 * (q / L))) by ring.
  clearbody t. remember (q / L) as x eqn:Ex. clear Ex Hq Hdiff.
  replace ((s - t) * (L * (s + t - 2 * x))) with (L * ((s - t) * (s + t - 2 * x)))
    by ring.
  apply Rmult_le_pos; [lra|].
  clear HL HLpos.
  destruct Hc as [[Hx ->]|[[Hx ->]|[Hx ->]]].
  - assert (0 <= s * (s - 2 * x)) by (apply Rmult_le_pos; lra). lra.
  - pose proof (Rle_0_sqr (s - x)) as Hsq. unfold Rsqr in Hsq. lra.
  - assert (0 <= (1 - s) * (2 * x - s - 1)) by (apply Rmult_le_pos; lra). lra.
Qed.

Lemma along_0 (a b : Vec3) : along a b 0 = a.
Proof. destruct a as [[ax ay] az]. unfold along. cbn [vx vy vz fst snd]. (f_equal; [f_equal|]); ring. Qed.

Lemma along_1 (a b : Vec3) : along a b 1 = b.
Proof.
  destruct a as [[ax ay] az], b as [[bx by_] bz].
  unfold along. cbn [vx vy vz fst snd]. (f_equal; [f_equal|]); ring.
Qed.

Lemma along_swap (a b : Vec3) (t : R) : along b a t = along a b (1 - t).
Proof.
  destruct a as [[ax ay] az], b as [[bx by_] bz].
  unfold along. cbn [vx vy vz fst snd]. (f_equal; [f_equal|]); ring.
Qed.

Lemma normSq_swap (a b : Vec3) : normSq (vsub a b) = normSq (vsub b a).
Proof. unfold normSq, vsub. cbn [vx vy vz fst snd]. ring. Qed.

Lemma dist3_nonneg (a b : Vec3) : 0 <= dist3 a b.
Proof. apply sqrt_pos. Qed.

Lemma pointToSegmentDistance_degenerate (p a b : Vec3) :
  normSq (vsub b a) < 1e-12 -> pointToSegmentDistance p a b = dist3 p a.
Proof.
  unfold pointToSegmentDistance, dist3, normSq, vsub.
  cbn [vx vy vz fst snd]. intro H. now rewrite (proj2 (ltb_lt _ _) H).
Qed.

(** X8.  The distance from a point to a segment is never negative and never
    more than the distance to the first end point. *)
Theorem pointToSegmentDistance_bounds (p a b : Vec3) :
  0 <= pointToSegmentDistance p a b <= dist3 p a.
Proof.
  destruct (Rlt_le_dec (normSq (vsub b a)) 1e-12) as [H|H].
  - rewrite (pointToSegmentDistance_degenerate p a b H).
    split; [apply dist3_nonneg | lra].
  - destruct (pointToSegmentDistance_along p a b H) as (t & Ht & -> & Hmin).
    split; [apply dist3_nonneg|].
    rewrite <- (along_0 a b) at 2. apply Hmin. lra.
Qed.

(** X10.  For a segment that is not degenerate (squared length at least
    1e-12) the distance does not depend on the order of the two end points,
    so the orientation of an edge plays no part in point selection. *)
Theorem pointToSegmentDistance_swap (p a b : Vec3) :
  1e-12 <= normSq (vsub b a) ->
  pointToSegmentDistance p a b = pointToSegmentDistance p b a.
Proof.
  intro H.
  assert (H' : 1e-12 <= normSq (vsub a b)) by (now rewrite normSq_swap).
  destruct (pointToSegmentDistance_along p a b H) as (t & Ht & -> & Hmin).
  destruct (pointToSegmentDistance_along p b a H') as (u & Hu & -> & Hmin').
  apply Rle_antisym.
  - rewrite (along_swap a b u). apply Hmin. lra.
  - rewrite (along_swap b a t). apply Hmin'. lra.
Qed.

Lemma sum_sq_nonneg (x y z : R) : 0 <= x * x + y * y + z * z.
Proof. nra. Qed.

Lemma unit_scaled (x y z : R) :
  0 < sqrt (x * x + y * y + z * z) ->
  normSq (x / sqrt (x * x + y * y + z * z),
          y / sqrt (x * x + y * y + z * z),
          z / sqrt (x * x + y * y + z * z)) = 1.
Proof.
  intro H. unfold normSq. cbn [vx vy vz fst snd].
  pose proof (sqrt_sqrt _ (sum_sq_nonneg x y z)) as Hs.
  set (l := sqrt (x * x + y * y + z * z)) in *.
  replace (x / l * (x / l) + y / l * (y / l) + z / l * (z / l))
    with ((x * x + y * y + z * z) / (l * l)) by (field; lra).
  rewrite <- Hs. field. lra.
Qed.

Lemma normSq_neg (x y z : R) : normSq (- x, - y, - z) = normSq (x, y, z).
Proof. unfold normSq. cbn [vx vy vz fst snd]. ring. Qed.

Lemma normalize_unit (v : Vec3) : normSq (normalize v) = 1.
Proof.
  destruct v as [[x y] z]. unfold normalize. cbn [vx vy vz fst snd].
  destruct (Num.ltb _ _) eqn:E.
  - unfold normSq. cbn [vx vy vz fst snd]. ring.
  - apply ltb_ge in E. apply unit_scaled. lra.
Qed.

Lemma edgeDirection_unit (edge : MeshEdge) : normSq (edgeDirection edge) = 1.
Proof.
  unfold edgeDirection. cbv zeta.
  destruct (Num.ltb _ _) eqn:E.
  - unfold normSq. cbn [vx vy vz fst snd]. ring.
  - apply ltb_ge in E. apply unit_scaled. lra.
Qed.

Lemma edgeDirection_points (edge : MeshEdge) :
  1e-12 <= edgeLength edge ->
  vsub (p1 edge) (p0 edge)
  = (edgeLength edge * vx (edgeDirection edge),
     edgeLength edge * vy (edgeDirection edge),
     edgeLength edge * vz (edgeDirection edge)).
Proof.
  unfold edgeDirection, edgeLength, vsub. cbv zeta. intro H.
  rewrite (proj2 (ltb_ge _ _) H). cbn [vx vy vz fst snd].
  (f_equal; [f_equal|]); field; lra.
Qed.

Lemma crossAndNormalize_unit (a b : Vec3) : normSq (crossAndNormalize a b) = 1.
Proof.
  unfold crossAndNormalize. cbv zeta. cbn [vx vy vz fst snd].
  destruct (Num.ltb _ _) eqn:E.
  - unfold normSq. cbn [vx vy vz fst snd]. ring.
  - apply ltb_ge in E.
    set (x := vy a * vz b - vz a * vy b) in *.
    set (y := vz a * vx b - vx a * vz b) in *.
    set (z := vx a * vy b - vy a * vx b) in *.
    replace (x ^ 2 + y ^ 2 + z ^ 2) with (x * x + y * y + z * z) in * by ring.
    apply unit_scaled. lra.
Qed.

Lemma edgeInwardDirection_unit (edge : MeshEdge) :
  normSq (edgeInwardDirection edge) = 1.
Proof.
  unfold edgeInwardDirection. cbv zeta. cbn [vx vy vz fst snd].
  destruct (Num.ltb _ _) eqn:E.
  - unfold normSq. cbn [vx vy vz fst snd]. ring.
  - apply ltb_ge in E.
    set (x := (vx (n0 edge) + vx (n1 edge)) / 2) in *.
    set (y := (vy (n0 edge) + vy (n1 edge)) / 2) in *.
    set (z := (vz (n0 edge) + vz (n1 edge)) / 2) in *.
    set (l := sqrt (x * x + y * y + z * z)) in *.
    replace (- x / l, - y / l, - z / l) with (- (x / l), - (y / l), - (z / l))
      by ((f_equal; [f_equal|]); field; lra).
    rewrite normSq_neg. apply unit_scaled. fold l. lra.
Qed.

Lemma edgeInwardDirection_inward (edge : MeshEdge) :
  let n := ((vx (n0 edge) + vx (n1 edge)) / 2,
            (vy (n0 edge) + vy (n1 edge)) / 2,
            (vz (n0 edge) + vz (n1 edge)) / 2) in
  1e-12 <= sqrt (normSq n) ->
  dot (edgeInwardDirection edge) (n0 edge) + dot (edgeInwardDirection edge) (n1 edge)
  = - 2 * sqrt (normSq n).
Proof.
  unfold edgeInwardDirection, normSq, dot. cbv zeta. cbn [vx vy vz fst snd].
  intro H. rewrite (proj2 (ltb_ge _ _) H). cbn [vx vy vz fst snd].
  set (x := (vx (n0 edge) + vx (n1 edge)) / 2) in *.
  set (y := (vy (n0 edge) + vy (n1 edge)) / 2) in *.
  set (z := (vz (n0 edge) + vz (n1 edge)) / 2) in *.
  pose proof (sqrt_sqrt _ (sum_sq_nonneg x y z)) as Hs.
  set (l := sqrt (x * x + y * y + z * z)) in *.
  replace (- x / l * vx (n0 edge) + - y / l * vy (n0 edge) + - z / l * vz (n0 edge) +
           (- x / l * vx (n1 edge) + - y / l * vy (n1 edge) + - z / l * vz (n1 edge)))
    with (- 2 * ((x * x + y * y + z * z) / l)) by (unfold x, y, z; field; lra).
  rewrite <- Hs. field. lra.
Qed.

Lemma computeNormal_cases (a b c : Vec3) :
  let n := triCross a b c in
  (1e-12 < sqrt (normSq n) /\
   computeNormal a b c
   = (vx n / sqrt (normSq n), vy n / sqrt (normSq n), vz n / sqrt (normSq n))) \/
  (sqrt (normSq n) <= 1e-12 /\ computeNormal a b c = n).
Proof.
  unfold computeNormal, triCross, normSq, vsub. cbv zeta. cbn [vx vy vz fst snd].
  destruct (Num.gtb _ _) eqn:E.
  - left. apply gtb_gt in E. split; [lra | reflexivity].
  - right. unfold Num.gtb in E. apply ltb_ge in E. split; [lra | reflexivity].
Qed.

Lemma triCross_perp (a b c : Vec3) :
  dot3 (triCross a b c) (vsub b a) = 0 /\ dot3 (triCross a b c) (vsub c a) = 0.
Proof.
  unfold dot3, triCross, vsub. cbn [vx vy vz fst snd]. split; ring.
Qed.

Lemma computeNormal_perp (a b c : Vec3) :
  dot3 (computeNormal a b c) (vsub b a) = 0 /\
  dot3 (computeNormal a b c) (vsub c a) = 0.
Proof.
  destruct (triCross_perp a b c) as [H1 H2].
  destruct (computeNormal_cases a b c) as [[Hl ->]|[Hl ->]]; [|now split].
  unfold dot3 in *. cbn [vx vy vz fst snd].
  set (n := triCross a b c) in *. set (l := sqrt (normSq n)) in *.
  split.
  - replace (vx n / l * vx (vsub b a) + vy n / l * vy (vsub b a) + vz n / l * vz (vsub b a))
      with ((vx n * vx (vsub b a) + vy n * vy (vsub b a) + vz n * vz (vsub b a)) / l)
      by (field; lra).
    rewrite H1. field. lra.
  - replace (vx n / l * vx (vsub c a) + vy n / l * vy (vsub c a) + vz n / l * vz (vsub c a))
      with ((vx n * vx (vsub c a) + vy n * vy (vsub c a) + vz n * vz (vsub c a)) / l)
      by (field; lra).
    rewrite H2. field. lra.
Qed.

Lemma computeNormal_length (a b c : Vec3) :
  normSq (computeNormal a b c) = 1 \/
  (computeNormal a b c = triCross a b c /\ sqrt (normSq (triCross a b c)) <= 1e-12).
Proof.
  destruct (computeNormal_cases a b c) as [[Hl E]|[Hl E]]; [left | right; now split].
  rewrite E. destruct (triCross a b c) as [[x y] z].
  unfold normSq in *. cbn [vx vy vz fst snd] in *. apply (unit_scaled x y z). lra.
Qed.

Lemma computeNormal_flat (a c : Vec3) : computeNormal a a c = (0, 0, 0).
Proof.
  destruct (computeNormal_cases a a c) as [[Hl E]|[Hl E]].
  - exfalso. revert Hl. unfold triCross, normSq, vsub. cbn [vx vy vz fst snd].
    match goal with |- context [sqrt ?x] => replace x with 0 by ring end.
    rewrite sqrt_0. lra.
  - rewrite E. unfold triCross, vsub. cbn [vx vy vz fst snd].
    (f_equal; [f_equal|]); ring.
Qed.

Lemma dihedral_sym (a b : Vec3) : dihedral a b = dihedral b a.
Proof.
  unfold dihedral, clampedDot, dot3.
  replace (vx a * vx b + vy a * vy b + vz a * vz b)
    with (vx b * vx a + vy b * vy a + vz b * vz a) by ring.
  reflexivity.
Qed.

Lemma dihedral_of_dot (a b : Vec3) :
  (1 <= dot3 a b -> dihedral a b = 0) /\
  (dot3 a b = 0 -> dihedral a b = 90) /\
  (dot3 a b <= -1 -> dihedral a b = 180).
Proof.
  unfold dihedral, clampedDot, Num.max, Num.min. pose proof PI_RGT_0 as Hpi.
  repeat split; intro H.
  - rewrite Rmin_left, Rmax_right by lra. rewrite acos_1. ring.
  - rewrite H, Rmin_right, Rmax_right by lra. rewrite acos_0. field. lra.
  - assert (E : Rmax (-1) (Rmin 1 (dot3 a b)) = -1).
    { rewrite Rmin_right by lra. apply Rmax_left. lra. }
    rewrite E. replace (-1) with (- (1)) by ring.
    rewrite acos_opp, acos_1. field. lra.
Qed.

Lemma samplePoint_along (edge : MeshEdge) (n i : nat) :
  samplePoint edge n i = along (p0 edge) (p1 edge) (INR i / INR n).
Proof. reflexivity. Qed.

Lemma sample_parameter (n i : nat) :
  (0 < n)%nat -> (i <= n)%nat -> 0 <= INR i / INR n <= 1.
Proof.
  intros Hn Hi. apply lt_INR in Hn. apply le_INR in Hi. simpl in Hn.
  pose proof (pos_INR i). split.
  - apply Rmult_le_pos; [assumption|]. apply Rlt_le, Rinv_0_lt_compat. assumption.
  - apply (Rmult_le_reg_r (INR n)); [assumption|].
    replace (INR i / INR n * INR n) with (INR i) by (field; lra). lra.
Qed.

Lemma dist3_self (p : Vec3) : dist3 p p = 0.
Proof.
  unfold dist3, normSq, vsub. cbn [vx vy vz fst snd].
  match goal with |- context [sqrt ?x] => replace x with 0 by ring end.
  apply sqrt_0.
Qed.

Lemma pointToSegmentDistance_on_segment (a b : Vec3) (s : R) :
  1e-12 <= normSq (vsub b a) -> 0 <= s <= 1 ->
  pointToSegmentDistance (along a b s) a b = 0.
Proof.
  intros H Hs.
  destruct (pointToSegmentDistance_along (along a b s) a b H) as (t & Ht & E & Hmin).
  rewrite E. apply Rle_antisym; [|apply dist3_nonneg].
  rewrite <- (dist3_self (along a b s)). now apply Hmin.
Qed.

Lemma nth_error_seq_map {A : Type} (f : nat -> A) (n i : nat) :
  (i < n)%nat -> forall s, nth_error (map f (seq s n)) i = Some (f (s + i)%nat).
Proof.
  revert i. induction n as [|n IH]; intros i Hi s; [lia|].
  destruct i as [|i]; simpl.
  - now rewrite Nat.add_0_r.
  - rewrite IH by lia. f_equal. f_equal. lia.
Qed.

(** X9.  For a segment that is not degenerate, the distance is the distance
    to some point of the segment, and no point of the segment is closer. *)
Theorem pointToSegmentDistance_minimal (p a b : Vec3) :
  1e-12 <= normSq (vsub b a) ->
  exists t, 0 <= t <= 1 /\
            pointToSegmentDistance p a b = dist3 p (along a b t) /\
            forall s, 0 <= s <= 1 ->
                      pointToSegmentDistance p a b <= dist3 p (along a b s).
Proof.
  intro H. destruct (pointToSegmentDistance_along p a b H) as (t & Ht & E & Hmin).
  exists t. rewrite E. auto.
Qed.

Lemma pointToSegmentDistance_minimal_unit_segment :
  exists t, 0 <= t <= 1 /\
            pointToSegmentDistance (0, 1, 0) (0, 0, 0) (1, 0, 0)
            = dist3 (0, 1, 0) (along (0, 0, 0) (1, 0, 0) t) /\
            forall s, 0 <= s <= 1 ->
                      pointToSegmentDistance (0, 1, 0) (0, 0, 0) (1, 0, 0)
                      <= dist3 (0, 1, 0) (along (0, 0, 0) (1, 0, 0) s).
Proof.
  apply (pointToSegmentDistance_minimal (0, 1, 0) (0, 0, 0) (1, 0, 0)).
  unfold normSq, vsub. cbn [vx vy vz fst snd]. lra.
Defined.

Lemma pointToSegmentDistance_swap_unit_segment :
  pointToSegmentDistance (0, 1, 0) (0, 0, 0) (1, 0, 0)
  = pointToSegmentDistance (0, 1, 0) (1, 0, 0) (0, 0, 0).
Proof.
  apply (pointToSegmentDistance_swap (0, 1, 0) (0, 0, 0) (1, 0, 0)).
  unfold normSq, vsub. cbn [vx vy vz fst snd]. lra.
Defined.

(** X5.  The normal of a triangle is perpendicular to its two edge vectors.
    When the cross product of the edge vectors is longer than 1e-12, the
    normal is that cross product divided by its length, and has length 1;
    when the cross product is at most 1e-12 long, the normal is the cross
    product itself, left as it is. *)
Theorem computeNormal_perpendicular (a b c : Vec3) :
  dot3 (computeNormal a b c) (vsub b a) = 0 /\
  dot3 (computeNormal a b c) (vsub c a) = 0 /\
  (1e-12 < sqrt (normSq (triCross a b c)) ->
   computeNormal a b c
   = (vx (triCross a b c) / sqrt (normSq (triCross a b c)),
      vy (triCross a b c) / sqrt (normSq (triCross a b c)),
      vz (triCross a b c) / sqrt (normSq (triCross a b c))) /\
   normSq (computeNormal a b c) = 1) /\
  (sqrt (normSq (triCross a b c)) <= 1e-12 ->
   computeNormal a b c = triCross a b c /\
   sqrt (normSq (computeNormal a b c)) <= 1e-12).
Proof.
  destruct (computeNormal_perp a b c) as [H1 H2].
  split; [exact H1|]. split; [exact H2|].
  pose proof (computeNormal_cases a b c) as Hc. cbv zeta in Hc.
  pose proof (computeNormal_length a b c) as Hl.
  split.
  - intro Hlong. destruct Hc as [[_ Hc]|[Hshort _]]; [|lra].
    split; [exact Hc|]. destruct Hl as [Hl|[_ Hshort]]; [exact Hl | lra].
  - intro Hshort. destruct Hc as [[Hlong _]|[_ Hc]]; [lra|].
    split; [exact Hc | now rewrite Hc].
Qed.

(** X6.  A triangle with two equal corners has the zero vector as normal,
    and an edge next to a zero normal gets a dihedral angle of 90 degrees,
    whatever the other normal is. *)
Theorem collapsed_triangle_right_angle (a c n : Vec3) :
  computeNormal a a c = (0, 0, 0) /\
  dihedral (computeNormal a a c) n = 90 /\
  dihedral n (computeNormal a a c) = 90.
Proof.
  rewrite computeNormal_flat.
  assert (H : dot3 (0, 0, 0) n = 0)
    by (unfold dot3; cbn [vx vy vz fst snd]; ring).
  split; [reflexivity|]. split.
  - now apply dihedral_of_dot.
  - rewrite dihedral_sym. now apply dihedral_of_dot.
Qed.

(** X7.  The dihedral angle is symmetric in the two normals; it is 0 when
    their dot product is 1 or more (equal unit normals: coplanar faces), 90
    when it is 0, and 180 when it is -1 or less (opposite unit normals). *)
Theorem dihedral_values (a b : Vec3) :
  dihedral a b = dihedral b a /\
  (1 <= dot3 a b -> dihedral a b = 0) /\
  (dot3 a b = 0 -> dihedral a b = 90) /\
  (dot3 a b <= -1 -> dihedral a b = 180) /\
  (normSq a = 1 -> dihedral a a = 0).
Proof.
  destruct (dihedral_of_dot a b) as (H1 & H0 & Hm).
  repeat split; try assumption; [apply dihedral_sym|].
  intro Hu. apply (dihedral_of_dot a a). unfold dot3, normSq in *. lra.
Qed.

(** X13.  With a positive number of samples, [sampleEdge] returns
    [numSamples + 1] points, the first being [p0] and the last [p1]; each is
    a point of the segment, and lies at distance 0 from the edge when the
    edge is not degenerate. *)
Theorem sampleEdge_samples (edge : MeshEdge) (n : nat) :
  (0 < n)%nat ->
  List.length (sampleEdge edge (Some n)) = S n /\
  nth_error (sampleEdge edge (Some n)) 0 = Some (p0 edge) /\
  nth_error (sampleEdge edge (Some n)) n = Some (p1 edge) /\
  Forall (fun q => exists t, 0 <= t <= 1 /\ q = along (p0 edge) (p1 edge) t)
         (sampleEdge edge (Some n)) /\
  (1e-12 <= normSq (vsub (p1 edge) (p0 edge)) ->
   Forall (fun q => pointToSegmentDistance q (p0 edge) (p1 edge) = 0)
          (sampleEdge edge (Some n))).
Proof.
  intro Hn. unfold sampleEdge.
  assert (Hpos : 0 < INR n) by (apply lt_0_INR; exact Hn).
  assert (Hall : Forall (fun q => exists t, 0 <= t <= 1 /\
                                          q = along (p0 edge) (p1 edge) t)
                        (map (samplePoint edge n) (seq 0 (S n)))).
  { apply Forall_forall. intros q Hq. apply in_map_iff in Hq.
    destruct Hq as (i & <- & Hi). apply in_seq in Hi.
    exists (INR i / INR n). split; [apply sample_parameter; lia | reflexivity]. }
  split; [now rewrite length_map, length_seq|].
  split; [|split; [|split; [exact Hall|]]].
  - rewrite nth_error_seq_map by lia. f_equal.
    rewrite samplePoint_along. simpl INR.
    replace (0 / INR n) with 0 by (field; lra). apply along_0.
  - rewrite nth_error_seq_map by lia. f_equal.
    rewrite samplePoint_along. simpl Nat.add.
    replace (INR n / INR n) with 1 by (field; lra). apply along_1.
  - intro Hnd. eapply Forall_impl; [|exact Hall].
    intros q (t & Ht & ->). now apply pointToSegmentDistance_on_segment.
Qed.

Lemma sampleEdge_samples_corner :
  List.length (sampleEdge cornerEdge (Some 4%nat)) = 5%nat /\
  nth_error (sampleEdge cornerEdge (Some 4%nat)) 0 = Some (p0 cornerEdge) /\
  nth_error (sampleEdge cornerEdge (Some 4%nat)) 4 = Some (p1 cornerEdge) /\
  Forall (fun q => exists t, 0 <= t <= 1 /\
                             q = along (p0 cornerEdge) (p1 cornerEdge) t)
         (sampleEdge cornerEdge (Some 4%nat)) /\
  (1e-12 <= normSq (vsub (p1 cornerEdge) (p0 cornerEdge)) ->
   Forall (fun q => pointToSegmentDistance q (p0 cornerEdge) (p1 cornerEdge) = 0)
          (sampleEdge cornerEdge (Some 4%nat))).
Proof. apply (sampleEdge_samples cornerEdge 4). lia. Defined.

(** X14.  [edgeDirection] always returns a vector of length 1: the
    direction from [p0] to [p1] when the edge is at least 1e-12 long, and
    (1, 0, 0) otherwise. *)
Theorem edgeDirection_unit_vector (edge : MeshEdge) :
  normSq (edgeDirection edge) = 1 /\
  (1e-12 <= edgeLength edge ->
   vsub (p1 edge) (p0 edge)
   = (edgeLength edge * vx (edgeDirection edge),
      edgeLength edge * vy (edgeDirection edge),
      edgeLength edge * vz (edgeDirection edge))) /\
  (edgeLength edge < 1e-12 -> edgeDirection edge = (1, 0, 0)).
Proof.
  split; [apply edgeDirection_unit|]. split; [apply edgeDirection_points|].
  unfold edgeDirection, edgeLength. cbv zeta. intro H.
  now rewrite (proj2 (ltb_lt _ _) H).
Qed.

(** X15.  [edgeInwardDirection] always returns a vector of length 1.  When
    the average of the two normals is at least 1e-12 long, the vector points
    against both normals taken together (its dot products with [n0] and
    [n1] add up to minus twice that length); otherwise it is (0, 0, 1). *)
Theorem edgeInwardDirection_unit_vector (edge : MeshEdge) :
  let n := ((vx (n0 edge) + vx (n1 edge)) / 2,
            (vy (n0 edge) + vy (n1 edge)) / 2,
            (vz (n0 edge) + vz (n1 edge)) / 2) in
  normSq (edgeInwardDirection edge) = 1 /\
  (1e-12 <= sqrt (normSq n) ->
   dot (edgeInwardDirection edge) (n0 edge) + dot (edgeInwardDirection edge) (n1 edge)
   = - 2 * sqrt (normSq n)) /\
  (sqrt (normSq n) < 1e-12 -> edgeInwardDirection edge = (0, 0, 1)).
Proof.
  intro n. split; [apply edgeInwardDirection_unit|].
  split; [apply edgeInwardDirection_inward|].
  unfold edgeInwardDirection, n, normSq. cbv zeta. cbn [vx vy vz fst snd]. intro H.
  now rewrite (proj2 (ltb_lt _ _) H).
Qed.

End Geometry.

(** ** More on selection *)

Lemma le_ext_strict (maxDist : Num.Ext) (x y : R) :
  Num.le_ext x maxDist = true -> Num.le_ext y maxDist = false -> (x < y)%R.
Proof.
  destruct maxDist as [d|]; simpl; [|discriminate].
  rewrite leb_le, leb_gt. lra.
Qed.

Lemma firstClosest_step (p : Vec3) (maxDist : Num.Ext)
    (acc : option MeshEdge * Num.Ext) (done : list MeshEdge) (edge : MeshEdge) :
  closestSoFar p maxDist acc done -> firstClosest p acc done ->
  firstClosest p (closerEdge p maxDist acc edge) (done ++ [edge]).
Proof.
  destruct acc as [[c|] cd]; unfold closestSoFar, firstClosest, closerEdge; simpl.
  - intros (Hin & -> & Hmax & Hmin) (before & after & -> & Hfirst). simpl.
    destruct (Num.ltb (edgeDistance p edge) (edgeDistance p c)) eqn:Hlt;
      [destruct (Num.le_ext (edgeDistance p edge) maxDist) eqn:Hle|]; simpl.
    + apply ltb_lt in Hlt. exists (before ++ c :: after), []. split; [reflexivity|].
      intros e He. specialize (Hmin e He). lra.
    + exists before, (after ++ [edge]). split; [|assumption].
      now rewrite <- app_assoc.
    + exists before, (after ++ [edge]). split; [|assumption].
      now rewrite <- app_assoc.
  - intros (-> & Hnone) _. simpl.
    destruct (Num.le_ext (edgeDistance p edge) maxDist) eqn:Hle; simpl; [|exact I].
    exists done, []. split; [reflexivity|].
    intros e He. apply (le_ext_strict maxDist); auto.
Qed.

Lemma firstClosest_fold (p : Vec3) (maxDist : Num.Ext) (edges : list MeshEdge) :
  forall acc done,
    closestSoFar p maxDist acc done -> firstClosest p acc done ->
    firstClosest p (fold_left (closerEdge p maxDist) edges acc) (done ++ edges).
Proof.
  induction edges as [|edge edges IH]; intros acc done Hc Hf; simpl.
  - now rewrite app_nil_r.
  - replace (done ++ edge :: edges) with ((done ++ [edge]) ++ edges)
      by (now rewrite <- app_assoc).
    apply IH; [now apply closestSoFar_step | now apply firstClosest_step].
Qed.

(** X11.  Among equally close edges, point selection returns the first in
    list order: every edge that comes before the selected one is strictly
    farther from the point. *)
Theorem point_selection_first_closest (edges : list MeshEdge)
    (s : PointEdgeSelection) :
  Forall (fun c => exists before after,
            edges = before ++ c :: after /\
            forall e, In e before ->
                      (edgeDistance (point s) c < edgeDistance (point s) e)%R)
         (selectEdges edges (SelPoint s)).
Proof.
  cbn [selectEdges]. unfold selectByPoint.
  pose proof (firstClosest_fold (point s) (reach s) edges (None, Num.Infinity) []) as H.
  unfold reach in H. cbn [app] in H.
  match type of H with _ -> _ -> firstClosest _ ?acc _ =>
    destruct (fst acc) as [c|] eqn:E end; [|constructor].
  constructor; [|constructor].
  unfold firstClosest in H. rewrite E in H. apply H.
  - split; [reflexivity | intros e []].
  - exact I.
Qed.

Lemma filter_all {A : Type} (p : A -> bool) (l : list A) :
  Forall (fun x => p x = true) l -> filter p l = l.
Proof.
  induction 1 as [|x l Hx _ IH]; simpl; [reflexivity|]. now rewrite Hx, IH.
Qed.

Lemma filter_none {A : Type} (p : A -> bool) (l : list A) :
  Forall (fun x => p x = false) l -> filter p l = [].
Proof.
  induction 1 as [|x l Hx _ IH]; simpl; [reflexivity|]. now rewrite Hx, IH.
Qed.

Lemma extracted_angle_bounds (m : Mesh) (e : MeshEdge) :
  In e (extractEdges m) -> (0 <= dihedralAngle e <= 180)%R.
Proof.
  intro He. destruct (extractEdges_indices m e He) as (_ & _ & _ & _ & _ & Hd).
  rewrite Hd. apply dihedral_bounds.
Qed.

(** X12.  On the edges of a mesh, an angle selection with [minAngle <= 0]
    returns every extracted edge, in order, and one with [minAngle > 180]
    returns none. *)
Theorem angle_selection_extremes (m : Mesh) (s : AngleEdgeSelection) :
  ((minAngle s <= 0)%R ->
   selectEdges (extractEdges m) (SelAngle s) = extractEdges m) /\
  ((180 < minAngle s)%R ->
   selectEdges (extractEdges m) (SelAngle s) = []).
Proof.
  cbn [selectEdges]. unfold selectByAngle. split; intro H.
  - apply filter_all, Forall_forall. intros e He.
    pose proof (extracted_angle_bounds m e He). apply leb_le. lra.
  - apply filter_none, Forall_forall. intros e He.
    pose proof (extracted_angle_bounds m e He). apply leb_gt. lra.
Qed.

(** ** More on the pipeline *)

Section PipelineMore.

Context {Manifold : Type} {K : ManifoldKernel Manifold}.

(** *** Tubes *)

Lemma hullsOfNeighbours_pairs (spheres : list Manifold) :
  hullsOfNeighbours spheres = map hull (neighbourPairs spheres).
Proof.
  induction spheres as [|a rest IH]; [reflexivity|].
  destruct rest as [|b rest']; [reflexivity|].
  change (hullsOfNeighbours (a :: b :: rest'))
    with (hull [a; b] :: hullsOfNeighbours (b :: rest')).
  change (neighbourPairs (a :: b :: rest'))
    with ([a; b] :: neighbourPairs (b :: rest')).
  simpl map. now rewrite IH.
Qed.

Lemma neighbourPairs_length (spheres : list Manifold) :
  List.length (neighbourPairs spheres) = (List.length spheres - 1)%nat.
Proof.
  induction spheres as [|a rest IH]; [reflexivity|].
  destruct rest as [|b rest']; [reflexivity|].
  change (neighbourPairs (a :: b :: rest'))
    with ([a; b] :: neighbourPairs (b :: rest')).
  simpl List.length in *. rewrite IH. lia.
Qed.

Lemma placeSpheres_log (r : R) (seg : option N) (path : list Vec3) :
  forall spheres,
    fst (forEach (placeSphere r seg) path spheres) = placeLog r seg path.
Proof.
  induction path as [|p path IH]; intro spheres; cbn [forEach placeLog flat_map].
  - reflexivity.
  - rewrite placeSphere_run, bind_returned. cbn [fst]. rewrite IH. reflexivity.
Qed.

Lemma hullNeighbours_log (spheres : list Manifold) :
  forall segments_,
    fst (hullNeighbours spheres segments_) = map EHull (neighbourPairs spheres).
Proof.
  induction spheres as [|a rest IH]; intro segments_; [reflexivity|].
  destruct rest as [|b rest']; [reflexivity|].
  change (hullNeighbours (a :: b :: rest') segments_)
    with (bind (hullM [a; b])
               (fun segment => hullNeighbours (b :: rest') (segments_ ++ [segment]))).
  change (hullM [a; b]) with ([EHull [a; b]], Returned (hull [a; b])).
  rewrite bind_returned. cbn [fst]. rewrite IH. reflexivity.
Qed.

Lemma segments_count (r : R) (seg : option N) (path : list Vec3) :
  List.length (hullsOfNeighbours (spheresAt r seg path))
  = (List.length path - 1)%nat.
Proof.
  rewrite hullsOfNeighbours_pairs, length_map, neighbourPairs_length.
  unfold spheresAt. now rewrite length_map.
Qed.

(** X19.  For a path of [n >= 2] points the kernel is called as follows, in
    this order: a sphere and a translation for every point, then one hull
    for every two neighbouring spheres ([n - 1] hulls), then one union of
    the segments unless [n = 2], in which case there is no union. *)
Theorem pipeAlongPath_kernel_calls (path : list Vec3) (r : R) (seg : option N) :
  (2 <= List.length path)%nat ->
  fst (pipeAlongPath path r seg)
  = placeLog r seg path
    ++ map EHull (neighbourPairs (spheresAt r seg path))
    ++ (if (List.length path =? 2)%nat then []
        else [EUnion (hullsOfNeighbours (spheresAt r seg path))]) /\
  List.length (placeLog r seg path) = (2 * List.length path)%nat /\
  List.length (neighbourPairs (spheresAt r seg path)) = (List.length path - 1)%nat.
Proof.
  intro H. split; [|split].
  - unfold pipeAlongPath.
    rewrite (proj2 (Nat.ltb_ge _ _) H).
    rewrite (run_eta (forEach (placeSphere r seg) path [])),
      placeSpheres_value, placeSpheres_log.
    rewrite bind_returned. cbn [fst snd app]. f_equal.
    rewrite (run_eta (hullNeighbours (spheresAt r seg path) [])),
      hullNeighbours_value, hullNeighbours_log.
    rewrite bind_returned. cbn [fst snd app]. f_equal.
    destruct path as [|p1 [|p2 [|p3 rest]]]; simpl in H; try lia; reflexivity.
  - unfold placeLog. rewrite (flat_map_constant_length (c := 2)) by reflexivity. lia.
  - rewrite neighbourPairs_length. unfold spheresAt. now rewrite length_map.
Qed.

Lemma extension_distance (start dir : Vec3) (ext : R) :
  normSq dir = 1%R ->
  dist3 (vx start + vx dir * ext, vy start + vy dir * ext, vz start + vz dir * ext)%R
        start
  = Rabs ext.
Proof.
  intro H. unfold dist3, normSq, vsub in *. cbn [vx vy vz fst snd].
  match goal with
  | |- sqrt ?x = _ => replace x with (Rsqr ext) by (unfold Rsqr; nra)
  end.
  apply sqrt_Rsqr_abs.
Qed.

(** X20.  For a path of [n >= 2] points, [pipeAlongPathExtended] keeps the
    path and adds one point in front and one behind, each at distance
    [|radius * extensionFactor|] from the end point next to it; the result
    is always the kernel's union of [n + 1] segments. *)
Theorem pipeAlongPathExtended_union (path : list Vec3) (r f : R) (seg : option N) :
  (2 <= List.length path)%nat ->
  exists before after segments_,
    extendPath path r f = before :: path ++ [after] /\
    dist3 before (nthP 0 path) = Rabs (r * f) /\
    dist3 after (nthP (List.length path - 1) path) = Rabs (r * f) /\
    snd (pipeAlongPathExtended path r (Some f) seg) = Returned (union segments_) /\
    List.length segments_ = (List.length path + 1)%nat.
Proof.
  intro H. eexists. eexists.
  exists (hullsOfNeighbours (spheresAt r seg (extendPath path r f))).
  split; [reflexivity|].
  split; [apply extension_distance, normalize_unit|].
  split; [apply extension_distance, normalize_unit|].
  assert (Hlen : List.length (hullsOfNeighbours (spheresAt r seg (extendPath path r f)))
                 = (List.length path + 1)%nat)
    by (rewrite segments_count, extendPath_length; lia).
  split; [|exact Hlen].
  rewrite (pipeAlongPathExtended_value path r (Some f) seg H). unfold tubeAlong.
  destruct (hullsOfNeighbours (spheresAt r seg (extendPath path r f)))
    as [|s1 [|s2 rest]]; simpl in Hlen; try lia. reflexivity.
Qed.

(** *** Cutting tools *)

(** X16.  [createFilletCuttingTool] returns [null] without calling the
    kernel for an edge shorter than 1e-9.  Otherwise it makes seven kernel
    calls and returns the hull of six points minus the hull of two spheres
    of the given radius; the line through the sphere centres is parallel to
    the edge and longer than it by a fifth of the radius, and the wedge is
    as long as the tube. *)
Theorem createFilletCuttingTool_shape (edge : MeshEdge) (r : R) (seg : option N) :
  ((edgeLength edge < 1e-9)%R ->
   createFilletCuttingTool edge r seg = ([], Returned None)) /\
  ((1e-9 <= edgeLength edge)%R ->
   exists c0 c1 wedge,
     createFilletCuttingTool edge r seg
     = ([ESphere r seg; ETranslate (sphere r seg) c0;
         ESphere r seg; ETranslate (sphere r seg) c1;
         EHull [translate (sphere r seg) c0; translate (sphere r seg) c1];
         EHullPoints wedge;
         ESubtract (hullPoints wedge)
                   (hull [translate (sphere r seg) c0; translate (sphere r seg) c1])],
        Returned (Some (subtract (hullPoints wedge)
                          (hull [translate (sphere r seg) c0;
                                 translate (sphere r seg) c1])))) /\
     List.length wedge = 6%nat /\
     vsub c1 c0
     = ((1 + 0.2 * r / edgeLength edge) * (vx (p1 edge) - vx (p0 edge)),
        (1 + 0.2 * r / edgeLength edge) * (vy (p1 edge) - vy (p0 edge)),
        (1 + 0.2 * r / edgeLength edge) * (vz (p1 edge) - vz (p0 edge)))%R /\
     vsub (nth 3 wedge (0, 0, 0)%R) (nth 0 wedge (0, 0, 0)%R) = vsub c1 c0).
Proof.
  unfold createFilletCuttingTool, edgeLength.
  destruct (p0 edge) as [[x0 y0] z0], (p1 edge) as [[x1 y1] z1].
  cbn [vx vy vz fst snd]. split; intro H.
  - now rewrite (proj2 (ltb_lt _ _) H).
  - rewrite (proj2 (ltb_ge _ _) H).
    destruct (n0 edge) as [[n0x n0y] n0z], (n1 edge) as [[n1x n1y] n1z].
    eexists. eexists. eexists. split; [reflexivity|]. split; [reflexivity|].
    unfold vsub. cbn [vx vy vz fst snd nth].
    set (len := sqrt ((x1 - x0) * (x1 - x0) + (y1 - y0) * (y1 - y0) +
                      (z1 - z0) * (z1 - z0))) in *.
    assert (Hlen : (0 < len)%R) by lra. clearbody len.
    replace 0.1%R with (1 / 10)%R by lra. replace 0.2%R with (2 / 10)%R by lra.
    split; (f_equal; [f_equal|]); field; lra.
Qed.

Lemma addCuttingTool_count (r : R) (seg : option N) (cuttingTools : list Manifold)
    (edge : MeshEdge) :
  exists log added,
    addCuttingTool r seg cuttingTools edge = (log, Returned (cuttingTools ++ added)) /\
    Forall insideToolConstruction log /\
    (List.length added <= 1)%nat /\
    (~ (5 < dihedralAngle edge < 175)%R -> log = [] /\ added = []).
Proof.
  assert (Hnone : forall c : Run Manifold (list Manifold),
             c = ([], Returned cuttingTools) ->
             exists log added,
               c = (log, Returned (cuttingTools ++ added)) /\
               Forall insideToolConstruction log /\
               (List.length added <= 1)%nat /\
               (~ (5 < dihedralAngle edge < 175)%R -> log = [] /\ added = [])).
  { intros c ->. exists [], []. rewrite app_nil_r.
    split; [reflexivity|]. split; [constructor|]. split; [simpl; lia|].
    intros _. split; reflexivity. }
  unfold addCuttingTool.
  destruct (Num.gtb (dihedralAngle edge) 5) eqn:Hlo; cbn [andb];
    [destruct (Num.ltb (dihedralAngle edge) 175) eqn:Hhi|];
    try (apply Hnone; reflexivity).
  apply gtb_gt in Hlo. apply ltb_lt in Hhi.
  destruct (createFilletCuttingTool_cases edge r seg) as [E|(log & tool & E & Hlog)].
  - apply Hnone. rewrite E, bind_returned. reflexivity.
  - rewrite E, bind_returned. cbn [fst snd].
    change (volumeM tool) with ([EVolume tool], Returned (volume tool)).
    rewrite bind_returned. cbn [fst snd].
    assert (Hlog' : Forall insideToolConstruction (log ++ [EVolume tool]))
      by (apply Forall_app; split; [assumption | repeat constructor]).
    destruct (Num.gtb (volume tool) 1e-9); cbn [fst snd].
    + exists (log ++ [EVolume tool]), [tool].
      split; [now rewrite app_nil_r|]. split; [assumption|]. split; [simpl; lia|].
      intro H. exfalso. apply H. lra.
    + exists (log ++ [EVolume tool]), []. rewrite !app_nil_r.
      split; [reflexivity|]. split; [assumption|]. split; [simpl; lia|].
      intro H. exfalso. apply H. lra.
Qed.

Lemma cuttingTools_count (r : R) (seg : option N) (edges : list MeshEdge) :
  forall cuttingTools,
  exists log added,
    forEach (addCuttingTool r seg) edges cuttingTools
    = (log, Returned (cuttingTools ++ added)) /\
    Forall insideToolConstruction log /\
    (List.length added <= List.length edges)%nat /\
    ((forall e, In e edges -> ~ (5 < dihedralAngle e < 175)%R) ->
     log = [] /\ added = []).
Proof.
  induction edges as [|edge edges IH]; intro cuttingTools; cbn [forEach].
  - exists [], []. rewrite app_nil_r. repeat split; constructor.
  - destruct (addCuttingTool_count r seg cuttingTools edge)
      as (log1 & added1 & E1 & Hlog1 & Hn1 & Hskip1).
    destruct (IH (cuttingTools ++ added1))
      as (log2 & added2 & E2 & Hlog2 & Hn2 & Hskip2).
    rewrite E1, bind_returned, E2. cbn [fst snd].
    exists (log1 ++ log2), (added1 ++ added2). rewrite app_assoc.
    split; [reflexivity|]. split; [apply Forall_app; now split|].
    split; [rewrite length_app; simpl; lia|].
    intro Hall.
    destruct Hskip1 as [-> ->]; [apply Hall; now left|].
    destruct Hskip2 as [-> ->]; [intros e He; apply Hall; now right|].
    split; reflexivity.
Qed.

Lemma fillet_run_counted (mf : Manifold) (options : FilletOptions) :
  (0 < radius options)%R ->
  selectEdges (extractEdges (getMesh mf)) (selection options) <> [] ->
  exists log tools,
    filletWithManifold mf options
    = ([EGetMesh mf;
        ELog "fillet: Found edges to fillet"
             (List.length (selectEdges (extractEdges (getMesh mf)) (selection options)))]
       ++ log
       ++ (if (0 <? List.length tools)%nat
           then [ELog "fillet: Subtracting tools sequentially" (List.length tools)]
           else [])
       ++ subtractLog mf tools,
       Returned (fold_left subtract tools mf)) /\
    Forall insideToolConstruction log /\
    (List.length tools
     <= List.length (selectEdges (extractEdges (getMesh mf)) (selection options)))%nat /\
    ((forall e, In e (selectEdges (extractEdges (getMesh mf)) (selection options)) ->
                ~ (5 < dihedralAngle e < 175)%R) ->
     log = [] /\ tools = []).
Proof.
  intros Hr Hsel. unfold filletWithManifold.
  rewrite (proj2 (leb_gt _ _) Hr).
  change (extractEdgesM mf) with ([EGetMesh mf], Returned (extractEdges (getMesh mf))).
  rewrite bind_returned.
  set (allEdges := extractEdges (getMesh mf)) in *.
  set (selected := selectEdges allEdges (selection options)) in *.
  destruct allEdges as [|e0 rest] eqn:Eall.
  { exfalso. apply Hsel. unfold selected.
    destruct (selection options); reflexivity. }
  cbn [List.length Nat.eqb].
  destruct selected as [|s0 srest] eqn:Esel; [contradiction|].
  cbn [List.length Nat.eqb].
  destruct (cuttingTools_count (radius options) (segmentsOrDefault options)
              (s0 :: srest) [])
    as (log & tools & E & Hlog & Hn & Hskip).
  cbn [app] in E.
  change (emit (ELog "fillet: Found edges to fillet" (S (List.length srest))))
    with ([ELog (Manifold := Manifold) "fillet: Found edges to fillet"
                (S (List.length srest))], Returned tt).
  rewrite bind_returned, E, bind_returned. cbn [fst snd].
  exists log, tools. split; [|auto].
  destruct (0 <? List.length tools)%nat eqn:Hpos.
  - change (emit (ELog "fillet: Subtracting tools sequentially" (List.length tools)))
      with ([ELog (Manifold := Manifold) "fillet: Subtracting tools sequentially"
                  (List.length tools)], Returned tt).
    rewrite bind_returned, subtractTools_run. cbn [fst snd app].
    reflexivity.
  - apply Nat.ltb_ge in Hpos. destruct tools; [|simpl in Hpos; lia].
    simpl. rewrite !app_nil_r. reflexivity.
Qed.

(** X17.  With a positive radius and a selection that is not empty, the
    orchestrator reads the mesh once, logs the number of selected edges,
    builds tools, and subtracts them one after the other from the input
    solid: at most one tool per selected edge, hence at most one
    subtraction for a point selection. *)
Theorem fillet_tool_count (mf : Manifold) (options : FilletOptions) :
  (0 < radius options)%R ->
  selectEdges (extractEdges (getMesh mf)) (selection options) <> [] ->
  exists log tools,
    filletWithManifold mf options
    = ([EGetMesh mf;
        ELog "fillet: Found edges to fillet"
             (List.length (selectEdges (extractEdges (getMesh mf)) (selection options)))]
       ++ log
       ++ (if (0 <? List.length tools)%nat
           then [ELog "fillet: Subtracting tools sequentially" (List.length tools)]
           else [])
       ++ subtractLog mf tools,
       Returned (fold_left subtract tools mf)) /\
    Forall insideToolConstruction log /\
    (List.length tools
     <= List.length (selectEdges (extractEdges (getMesh mf)) (selection options)))%nat /\
    (forall s, selection options = SelPoint s -> (List.length tools <= 1)%nat).
Proof.
  intros Hr Hsel.
  destruct (fillet_run_counted mf options Hr Hsel) as (log & tools & E & Hlog & Hn & _).
  exists log, tools. repeat split; try assumption.
  intros s Hs. rewrite Hs in Hn. cbn [selectEdges] in Hn.
  pose proof (selectByPoint_spec (extractEdges (getMesh mf)) s) as Hspec.
  cbv zeta in Hspec.
  destruct (selectByPoint (extractEdges (getMesh mf)) s) as [|c [|c' rest]];
    simpl in Hn; first [lia | contradiction].
Qed.

(** X18.  With a positive radius, when edges are selected but none has a
    dihedral angle strictly between 5 and 175 degrees, the orchestrator
    returns the input solid itself: it reads the mesh, logs the number of
    selected edges, calls no kernel operation and gives no warning. *)
Theorem fillet_nothing_qualifies (mf : Manifold) (options : FilletOptions) :
  (0 < radius options)%R ->
  selectEdges (extractEdges (getMesh mf)) (selection options) <> [] ->
  (forall e, In e (selectEdges (extractEdges (getMesh mf)) (selection options)) ->
             ~ (5 < dihedralAngle e < 175)%R) ->
  filletWithManifold mf options
  = ([EGetMesh mf;
      ELog "fillet: Found edges to fillet"
           (List.length (selectEdges (extractEdges (getMesh mf)) (selection options)))],
     Returned mf).
Proof.
  intros Hr Hsel Hall.
  destruct (fillet_run_counted mf options Hr Hsel) as (log & tools & E & _ & _ & Hskip).
  destruct (Hskip Hall) as [-> ->]. rewrite E. reflexivity.
Qed.

(** X22.  An extracted edge whose two normals are the same unit vector
    (two coplanar triangles) has dihedral angle 0, and the orchestrator's
    loop passes it over: no kernel call, no tool. *)
Theorem coplanar_edge_skipped (m : Mesh) (r : R) (seg : option N)
    (cuttingTools : list Manifold) :
  Forall (fun e =>
            n0 e = n1 e -> normSq (n0 e) = 1%R ->
            dihedralAngle e = 0%R /\
            addCuttingTool r seg cuttingTools e = ([], Returned cuttingTools))
         (extractEdges m).
Proof.
  apply Forall_forall. intros e He Hsame Hunit.
  destruct (extractEdges_indices m e He) as (_ & _ & _ & _ & _ & Hd).
  assert (H0 : dihedralAngle e = 0%R).
  { rewrite Hd, <- Hsame. apply (dihedral_of_dot (n0 e) (n0 e)).
    unfold dot3, normSq in *. lra. }
  split; [exact H0|].
  unfold addCuttingTool. rewrite H0.
  replace (Num.gtb 0 5) with false by (symmetry; apply ltb_ge; lra).
  reflexivity.
Qed.

(** *** The wedge of [wedgeBuilder.ts] *)

Lemma flipToward_unit (offset n : Vec3) :
  normSq offset = 1%R -> normSq (flipToward offset n) = 1%R.
Proof.
  intro H. unfold flipToward. destruct (Num.ltb _ _); [|exact H].
  destruct offset as [[x y] z]. cbn [vx vy vz fst snd].
  now rewrite normSq_neg.
Qed.

(** X21.  [buildWedge] makes one kernel call, the hull of six points, and
    never fails.  The six points form a prism: the end cap is the start cap
    moved along the edge by the edge vector plus twice [inflate] times the
    edge direction, and in each cap the two outer points are at distance
    [|distance + inflate|] from the point on the edge line. *)
Theorem buildWedge_prism (edge : MeshEdge) (distance inflate : R) :
  exists s0 sA sB e0 eA eB,
    buildWedge edge distance (Some inflate)
    = ([EHullPoints [s0; sA; sB; e0; eA; eB]],
       Returned (hullPoints [s0; sA; sB; e0; eA; eB])) /\
    vsub eA sA = vsub e0 s0 /\ vsub eB sB = vsub e0 s0 /\
    vsub e0 s0
    = (vx (p1 edge) - vx (p0 edge) + 2 * inflate * vx (edgeDirection edge),
       vy (p1 edge) - vy (p0 edge) + 2 * inflate * vy (edgeDirection edge),
       vz (p1 edge) - vz (p0 edge) + 2 * inflate * vz (edgeDirection edge))%R /\
    dist3 sA s0 = Rabs (distance + inflate) /\
    dist3 sB s0 = Rabs (distance + inflate) /\
    dist3 eA e0 = Rabs (distance + inflate) /\
    dist3 eB e0 = Rabs (distance + inflate).
Proof.
  unfold buildWedge, wedgePoints. cbv zeta.
  set (dir := edgeDirection edge).
  set (offsetA := flipToward (crossAndNormalize (n0 edge) dir) (n0 edge)).
  set (offsetB := flipToward (crossAndNormalize (n1 edge) dir) (n1 edge)).
  assert (HA : normSq offsetA = 1%R) by apply flipToward_unit, crossAndNormalize_unit.
  assert (HB : normSq offsetB = 1%R) by apply flipToward_unit, crossAndNormalize_unit.
  do 6 eexists. split; [reflexivity|].
  split; [unfold vsub; cbn [vx vy vz fst snd]; (f_equal; [f_equal|]); ring|].
  split; [unfold vsub; cbn [vx vy vz fst snd]; (f_equal; [f_equal|]); ring|].
  split; [unfold vsub; cbn [vx vy vz fst snd]; (f_equal; [f_equal|]); ring|].
  repeat split.
  - apply (extension_distance _ offsetA _ HA).
  - apply (extension_distance _ offsetB _ HB).
  - apply (extension_distance _ offsetA _ HA).
  - apply (extension_distance _ offsetB _ HB).
Qed.

End PipelineMore.

(** ** The further properties on sample inputs *)

Lemma flatSquare_normal_0 : triNormal flatSquare 0 = (0, 0, 1)%R.
Proof.
  unfold triNormal.
  change (getVertex flatSquare (Some (triIndex flatSquare 0 0))) with (0, 0, 0)%R.
  change (getVertex flatSquare (Some (triIndex flatSquare 0 1))) with (1, 0, 0)%R.
  change (getVertex flatSquare (Some (triIndex flatSquare 0 2))) with (0, 1, 0)%R.
  unfold computeNormal. cbn [vx vy vz fst snd].
  unit_sqrt.
  rewrite (proj2 (gtb_gt 1 1e-12)) by lra.
  (f_equal; [f_equal|]); lra.
Qed.

Lemma flatSquare_normal_1 : triNormal flatSquare 1 = (0, 0, 1)%R.
Proof.
  unfold triNormal.
  change (getVertex flatSquare (Some (triIndex flatSquare 1 0))) with (1, 0, 0)%R.
  change (getVertex flatSquare (Some (triIndex flatSquare 1 1))) with (1, 1, 0)%R.
  change (getVertex flatSquare (Some (triIndex flatSquare 1 2))) with (0, 1, 0)%R.
  unfold computeNormal. cbn [vx vy vz fst snd].
  unit_sqrt.
  rewrite (proj2 (gtb_gt 1 1e-12)) by lra.
  (f_equal; [f_equal|]); lra.
Qed.

(** The diagonal of the flat square is extracted with dihedral angle 0. *)
Example flatSquare_edges : extractEdges flatSquare = [flatEdge].
Proof.
  unfold extractEdges.
  replace (buildEdgeToTris flatSquare)
    with [("0_1", [mkAdjacent 0 (triNormal flatSquare 0)]);
          ("1_2", [mkAdjacent 0 (triNormal flatSquare 0);
                   mkAdjacent 1 (triNormal flatSquare 1)]);
          ("0_2", [mkAdjacent 0 (triNormal flatSquare 0)]);
          ("1_3", [mkAdjacent 1 (triNormal flatSquare 1)]);
          ("2_3", [mkAdjacent 1 (triNormal flatSquare 1)])]
    by (cbv -[triNormal]; reflexivity).
  cbn [collectEdges edgeOfEntry normal].
  rewrite flatSquare_normal_0, flatSquare_normal_1.
  replace (dihedral (0, 0, 1)%R (0, 0, 1)%R) with 0%R; [reflexivity|].
  symmetry. apply (dihedral_of_dot (0, 0, 1)%R (0, 0, 1)%R).
  unfold dot3. cbn [vx vy vz fst snd]. lra.
Qed.

Lemma corner_selected :
  selectEdges (extractEdges (getMesh (OfMesh corner))) (selection sampleOptions)
  = [cornerEdge].
Proof.
  change (getMesh (OfMesh corner)) with corner. rewrite corner_edges.
  cbn [sampleOptions selection selectEdges]. unfold selectByAngle. cbn [filter minAngle].
  replace (Num.leb (dihedralAngle cornerEdge) (180 - 80)) with true
    by (symmetry; apply leb_le; simpl; lra).
  reflexivity.
Qed.

Lemma flatSquare_selected :
  selectEdges (extractEdges (getMesh (OfMesh flatSquare))) (selection sampleOptions)
  = [flatEdge].
Proof.
  change (getMesh (OfMesh flatSquare)) with flatSquare. rewrite flatSquare_edges.
  cbn [sampleOptions selection selectEdges]. unfold selectByAngle. cbn [filter minAngle].
  replace (Num.leb (dihedralAngle flatEdge) (180 - 80)) with true
    by (symmetry; apply leb_le; simpl; lra).
  reflexivity.
Qed.

(** Filleting the corner: one selected edge, at most one tool. *)
Lemma fillet_tool_count_corner :
  exists log tools,
    filletWithManifold (OfMesh corner) sampleOptions
    = ([EGetMesh (OfMesh corner);
        ELog "fillet: Found edges to fillet"
             (List.length (selectEdges (extractEdges (getMesh (OfMesh corner)))
                                       (selection sampleOptions)))]
       ++ log
       ++ (if (0 <? List.length tools)%nat
           then [ELog "fillet: Subtracting tools sequentially" (List.length tools)]
           else [])
       ++ subtractLog (OfMesh corner) tools,
       Returned (fold_left subtract tools (OfMesh corner))) /\
    Forall insideToolConstruction log /\
    (List.length tools
     <= List.length (selectEdges (extractEdges (getMesh (OfMesh corner)))
                                 (selection sampleOptions)))%nat /\
    (forall s, selection sampleOptions = SelPoint s -> (List.length tools <= 1)%nat).
Proof.
  apply (fillet_tool_count (OfMesh corner) sampleOptions).
  - simpl. lra.
  - rewrite corner_selected. discriminate.
Defined.

(** Filleting the flat square: the diagonal is selected and passed over. *)
Lemma fillet_nothing_qualifies_flat_square :
  filletWithManifold (OfMesh flatSquare) sampleOptions
  = ([EGetMesh (OfMesh flatSquare);
      ELog "fillet: Found edges to fillet"
           (List.length (selectEdges (extractEdges (getMesh (OfMesh flatSquare)))
                                     (selection sampleOptions)))],
     Returned (OfMesh flatSquare)).
Proof.
  apply (fillet_nothing_qualifies (OfMesh flatSquare) sampleOptions).
  - simpl. lra.
  - rewrite flatSquare_selected. discriminate.
  - rewrite flatSquare_selected. intros e [<-|[]]. simpl. lra.
Defined.

Lemma pipeAlongPath_kernel_calls_bend :
  fst (pipeAlongPath [(0, 0, 0); (10, 0, 0); (10, 10, 0)]%R 1 None)
  = placeLog 1 None [(0, 0, 0); (10, 0, 0); (10, 10, 0)]%R
    ++ map EHull (neighbourPairs
                    (spheresAt 1 None [(0, 0, 0); (10, 0, 0); (10, 10, 0)]%R))
    ++ (if (List.length [(0, 0, 0); (10, 0, 0); (10, 10, 0)]%R =? 2)%nat then []
        else [EUnion (hullsOfNeighbours
                        (spheresAt 1 None [(0, 0, 0); (10, 0, 0); (10, 10, 0)]%R))]) /\
  List.length (placeLog (K := SymbolicKernel) 1 None
                        [(0, 0, 0); (10, 0, 0); (10, 10, 0)]%R)
  = (2 * List.length [(0, 0, 0); (10, 0, 0); (10, 10, 0)]%R)%nat /\
  List.length (neighbourPairs
                 (spheresAt 1 None [(0, 0, 0); (10, 0, 0); (10, 10, 0)]%R))
  = (List.length [(0, 0, 0); (10, 0, 0); (10, 10, 0)]%R - 1)%nat.
Proof.
  apply (pipeAlongPath_kernel_calls (K := SymbolicKernel)
           [(0, 0, 0); (10, 0, 0); (10, 10, 0)]%R 1 None).
  simpl. lia.
Defined.

Lemma pipeAlongPathExtended_union_straight :
  exists before after segments_,
    extendPath [(0, 0, 0); (10, 0, 0)]%R 1 0.1
    = before :: [(0, 0, 0); (10, 0, 0)]%R ++ [after] /\
    dist3 before (nthP 0 [(0, 0, 0); (10, 0, 0)]%R) = Rabs (1 * 0.1) /\
    dist3 after (nthP (List.length [(0, 0, 0); (10, 0, 0)]%R - 1)
                      [(0, 0, 0); (10, 0, 0)]%R) = Rabs (1 * 0.1) /\
    snd (pipeAlongPathExtended [(0, 0, 0); (10, 0, 0)]%R 1 (Some 0.1%R) None)
    = Returned (UnionOf segments_) /\
    List.length segments_ = (List.length [(0, 0, 0); (10, 0, 0)]%R + 1)%nat.
Proof.
  apply (pipeAlongPathExtended_union (K := SymbolicKernel)
           [(0, 0, 0); (10, 0, 0)]%R 1 0.1 None).
  simpl. lia.
Defined.

(** ** The parameters of the spheres *)

Section SphereParameters.

Context {Manifold : Type} {K : ManifoldKernel Manifold}.

Lemma createFilletCuttingTool_spheres (edge : MeshEdge) (r : R) (seg : option N) :
  Forall (sphereWith r seg) (fst (createFilletCuttingTool edge r seg)).
Proof.
  unfold createFilletCuttingTool.
  destruct (p0 edge) as [[x0 y0] z0], (p1 edge) as [[x1 y1] z1].
  destruct (Num.ltb _ _); [constructor|].
  destruct (n0 edge) as [[n0x n0y] n0z], (n1 edge) as [[n1x n1y] n1z].
  cbn. repeat constructor.
Qed.

Lemma addCuttingTool_spheres (r : R) (seg : option N) (cuttingTools : list Manifold)
    (edge : MeshEdge) :
  Forall (sphereWith r seg) (fst (addCuttingTool r seg cuttingTools edge)).
Proof.
  unfold addCuttingTool.
  destruct (Num.gtb (dihedralAngle edge) 5 && Num.ltb (dihedralAngle edge) 175);
    [|constructor].
  pose proof (createFilletCuttingTool_spheres edge r seg) as H.
  destruct (createFilletCuttingTool_cases edge r seg) as [E|(log & tool & E & _)];
    rewrite E in *; rewrite bind_returned; cbn [fst snd] in *.
  - simpl. constructor.
  - change (volumeM tool) with ([EVolume tool], Returned (volume tool)).
    rewrite bind_returned. cbn [fst snd].
    apply Forall_app. split; [assumption|].
    destruct (Num.gtb (volume tool) 1e-9); repeat constructor.
Qed.

Lemma forEach_log {A S : Type} (P : Event Manifold -> Prop)
    (body : S -> A -> Run Manifold S) :
  (forall acc x, Forall P (fst (body acc x))) ->
  forall xs acc, Forall P (fst (forEach body xs acc)).
Proof.
  intros H xs. induction xs as [|x xs IH]; intro acc; cbn [forEach]; [constructor|].
  specialize (H acc x). destruct (body acc x) as [log [s|msg]]; cbn [bind fst] in *.
  - specialize (IH s). destruct (forEach body xs s) as [log' out]. cbn [fst] in *.
    apply Forall_app. now split.
  - assumption.
Qed.

Lemma subtractLog_spheres (r : R) (seg : option N) (tools : list Manifold) :
  forall result, Forall (sphereWith r seg) (subtractLog result tools).
Proof.
  induction tools as [|tool rest IH]; intro result; simpl; constructor;
    [exact I | apply IH].
Qed.

(** X23.  Every sphere the orchestrator asks the kernel for has the radius
    of the options and their number of segments, 16 when the options give
    none. *)
Theorem fillet_sphere_parameters (mf : Manifold) (options : FilletOptions) :
  Forall (sphereWith (radius options)
                     (match segments options with
                      | Some s => Some s
                      | None => Some 16%N
                      end))
         (fst (filletWithManifold mf options)).
Proof.
  fold (segmentsOrDefault options). unfold filletWithManifold.
  destruct (Num.leb (radius options) 0); [constructor|].
  change (extractEdgesM mf) with ([EGetMesh mf], Returned (extractEdges (getMesh mf))).
  rewrite bind_returned.
  destruct (List.length (extractEdges (getMesh mf)) =? 0)%nat;
    [repeat constructor|].
  set (selected := selectEdges (extractEdges (getMesh mf)) (selection options)).
  destruct (List.length selected =? 0)%nat; [repeat constructor|].
  change (emit (ELog "fillet: Found edges to fillet" (List.length selected)))
    with ([ELog (Manifold := Manifold) "fillet: Found edges to fillet"
                (List.length selected)], Returned tt).
  rewrite bind_returned. cbn [fst snd app].
  pose proof (forEach_log (sphereWith (radius options) (segmentsOrDefault options))
                (addCuttingTool (radius options) (segmentsOrDefault options))
                (fun acc x => addCuttingTool_spheres _ _ acc x) selected []) as Hlog.
  destruct (cuttingTools_run (radius options) (segmentsOrDefault options) selected [])
    as (log & tools & E & _ & _).
  rewrite E in *. rewrite bind_returned. cbn [fst snd app] in *.
  constructor; [exact I|]. constructor; [exact I|].
  apply Forall_app. split; [assumption|].
  destruct (0 <? List.length tools)%nat.
  - change (emit (ELog "fillet: Subtracting tools sequentially" (List.length tools)))
      with ([ELog (Manifold := Manifold) "fillet: Subtracting tools sequentially"
                  (List.length tools)], Returned tt).
    rewrite bind_returned, subtractTools_run. cbn [fst snd app].
    constructor; [exact I|]. apply subtractLog_spheres.
  - constructor.
Qed.

End SphereParameters.
